(** * Strike specifications: a shallow embedding of src/core/SkStrikeSpec.cpp

    The factories of [SkStrikeSpecStorage] normalise a font, a paint, surface
    properties, scaler-context flags and a matrix, hand them to the descriptor
    builder and keep the descriptor, the effects, the typeface and a
    strike-to-source ratio.  The resolvers hand that data to a strike cache.

    Scalars are IEEE binary32 values, computed with the operations of
    [SpecFloat]; integers are [Z]. *)

From Stdlib Require Import ZArith Bool List Lia.
From Stdlib Require Import Floats.SpecFloat.
Import ListNotations.
Local Open Scope Z_scope.

(** ** SkScalar: binary32 arithmetic *)

Module Scalar.

Definition prec : Z := 24.
Definition emax : Z := 128.

(** [typedef float SkScalar]. *)
Definition SkScalar : Set := spec_float.

(** Conversion of a C integer to [float], round to nearest even:
    [SkIntToScalar(n)] and the cast [(SkScalar)n]. *)
Definition SkIntToScalar (n : Z) : SkScalar := binary_normalize prec emax n 0 false.

Definition SK_Scalar1 : SkScalar := SkIntToScalar 1.
Definition SK_Scalar0 : SkScalar := S754_zero false.

(** The C++ operators [/] and [*] on [float], each rounded to binary32
    (round to nearest, ties to even); a division by zero is the IEEE one
    and gives an infinity or NaN. *)
Definition sk_div (x y : SkScalar) : SkScalar := SFdiv prec emax x y.
Definition sk_mul (x y : SkScalar) : SkScalar := SFmul prec emax x y.

(** [floorf]: the largest integral value not above [x]; zeros, infinities
    and NaN are returned as they are, and the sign of a zero result is the
    sign of [x]. *)
Definition sk_float_floor (x : SkScalar) : SkScalar :=
  match x with
  | S754_finite s m e =>
      if 0 <=? e then x
      else
        let q := Z.shiftr (Z.pos m) (- e) in
        let inexact := negb (Z.shiftl q (- e) =? Z.pos m) in
        let n := if s && inexact then q + 1 else q in
        match n with
        | Z0 => S754_zero s
        | _ => binary_normalize prec emax (if s then - n else n) 0 s
        end
  | _ => x
  end.

(** [#define SkScalarFloorToScalar(x) sk_float_floor(x)]. *)
Definition SkScalarFloorToScalar (x : SkScalar) : SkScalar := sk_float_floor x.

(** The comparisons [<] and [<=] of C++ on [float] (false on NaN). *)
Definition sk_lt (x y : SkScalar) : bool := SFltb x y.
Definition sk_le (x y : SkScalar) : bool := SFleb x y.

(** A well-formed binary32 datum: the mantissa and exponent of a finite
    value are the canonical ones. *)
Definition well_formed (x : SkScalar) : bool := valid_binary prec emax x.

End Scalar.
Import Scalar.

(** ** Data model *)

Module SkFontHinting.
Inductive t : Set := kNone | kSlight | kNormal | kFull.
End SkFontHinting.

Module Edging.
Inductive t : Set := kAlias | kAntiAlias | kSubpixelAntiAlias.
End Edging.

(** The scaler-context flags, a bit set held in a [uint32_t]. *)
Module SkScalerContextFlags.
Definition t : Set := Z.
Definition kNone : t := 0.
Definition kFakeGamma : t := Z.shiftl 1 0.
Definition kBoostContrast : t := Z.shiftl 1 1.
Definition kFakeGammaAndBoostContrast : t := Z.lor kFakeGamma kBoostContrast.
End SkScalerContextFlags.

Inductive SkPixelGeometry : Set :=
| kUnknown_SkPixelGeometry
| kRGB_H_SkPixelGeometry
| kBGR_H_SkPixelGeometry
| kRGB_V_SkPixelGeometry
| kBGR_V_SkPixelGeometry.

(** [SkSurfaceProps(uint32_t flags, SkPixelGeometry)]. *)
Record SkSurfaceProps : Set := mkSurfaceProps {
  sp_flags : Z;
  sp_pixelGeometry : SkPixelGeometry
}.

(** A 3x3 matrix, row major. *)
Record SkMatrix : Set := mkMatrix {
  scaleX : SkScalar; skewX : SkScalar; transX : SkScalar;
  skewY : SkScalar; scaleY : SkScalar; transY : SkScalar;
  persp0 : SkScalar; persp1 : SkScalar; persp2 : SkScalar
}.

(** [SkMatrix::I()]. *)
Definition SkMatrix_I : SkMatrix :=
  mkMatrix SK_Scalar1 SK_Scalar0 SK_Scalar0
           SK_Scalar0 SK_Scalar1 SK_Scalar0
           SK_Scalar0 SK_Scalar0 SK_Scalar1.

(** A typeface: its identity and what [getUnitsPerEm()] reports (a C [int]). *)
Record SkTypeface : Set := mkTypeface {
  uniqueID : Z;
  getUnitsPerEm : Z
}.

(** Mask filters and path effects are only held by reference; a reference is
    the identity of the object it points to. *)
Inductive SkMaskFilter : Set := MaskFilterRef (id : Z).
Inductive SkPathEffect : Set := PathEffectRef (id : Z).

(** [SkScalerContextEffects{pathEffect, maskFilter}]: two nullable pointers,
    the path effect first. *)
Module SkScalerContextEffects.
Record t : Set := make {
  fPathEffect : option SkPathEffect;
  fMaskFilter : option SkMaskFilter
}.
End SkScalerContextEffects.

(** Modelled from the spec: [SkFont], whose class is declared in
    include/core/SkFont.h, not under src/.  The spec's font description is a
    typeface reference, size, scale, skew, hinting, edging and the subpixel
    flag; every setter stores its argument in its field. *)
Record SkFont : Set := mkFont {
  font_typeface : option SkTypeface;
  font_size : SkScalar;
  font_scaleX : SkScalar;
  font_skewX : SkScalar;
  font_subpixel : bool;
  font_edging : Edging.t;
  font_hinting : SkFontHinting.t
}.

Definition getSize (f : SkFont) : SkScalar := font_size f.
Definition isSubpixel (f : SkFont) : bool := font_subpixel f.
Definition getEdging (f : SkFont) : Edging.t := font_edging f.
Definition getHinting (f : SkFont) : SkFontHinting.t := font_hinting f.
Definition getTypeface (f : SkFont) : option SkTypeface := font_typeface f.

Definition setSize (size : SkScalar) (f : SkFont) : SkFont :=
  mkFont (font_typeface f) size (font_scaleX f) (font_skewX f)
         (font_subpixel f) (font_edging f) (font_hinting f).

Definition setSubpixel (b : bool) (f : SkFont) : SkFont :=
  mkFont (font_typeface f) (font_size f) (font_scaleX f) (font_skewX f)
         b (font_edging f) (font_hinting f).

Definition setEdging (e : Edging.t) (f : SkFont) : SkFont :=
  mkFont (font_typeface f) (font_size f) (font_scaleX f) (font_skewX f)
         (font_subpixel f) e (font_hinting f).

Definition setHinting (h : SkFontHinting.t) (f : SkFont) : SkFont :=
  mkFont (font_typeface f) (font_size f) (font_scaleX f) (font_skewX f)
         (font_subpixel f) (font_edging f) h.

Definition setTypeface (tf : option SkTypeface) (f : SkFont) : SkFont :=
  mkFont tf (font_size f) (font_scaleX f) (font_skewX f)
         (font_subpixel f) (font_edging f) (font_hinting f).

(** ** The collaborators of SkStrikeSpec.cpp

    Everything the file calls but does not define: the paint class, the
    descriptor builder, the policies of SkDraw and GrTextContext, and the
    constants of the headers. *)
Class Collaborators : Type := {
  (** [SkPaint] and its default constructor [SkPaint()]. *)
  SkPaint : Type;
  SkPaint_default : SkPaint;
  (** The default constructor [SkFont()]. *)
  SkFont_default : SkFont;
  (** [SkTypeface::MakeDefault()], what a null typeface resolves to. *)
  SkTypeface_MakeDefault : SkTypeface;
  (** [SkSurfaceProps(SkSurfaceProps::kLegacyFontHost_InitType)]. *)
  SkSurfaceProps_kLegacyFontHost : SkSurfaceProps;
  (** [SkStrikeCommon::kSkSideTooBigForAtlas], a [uint16_t] constant. *)
  kSkSideTooBigForAtlas : Z;
  (** [SkDescriptor] and
      [SkScalerContext::CreateDescriptorAndEffectsUsingPaint], which fills
      the descriptor and the effects from its five inputs. *)
  SkDescriptor : Type;
  CreateDescriptorAndEffectsUsingPaint :
    SkFont -> SkPaint -> SkSurfaceProps -> SkScalerContextFlags.t -> SkMatrix ->
    SkDescriptor * SkScalerContextEffects.t;
  (** [SkFont::setupForAsPaths(SkPaint* paint)]: the returned ratio, the font
      as it is left, and the paint as it is left ([None] for [nullptr]). *)
  setupForAsPaths : SkFont -> option SkPaint -> SkScalar * SkFont * option SkPaint;
  (** [SkDraw::ShouldDrawTextAsPaths]. *)
  ShouldDrawTextAsPaths : SkFont -> SkPaint -> SkMatrix -> bool;
  (** [GrTextContext::Options] and the distance-field policy. *)
  GrTextContext_Options : Type;
  InitDistanceFieldPaint : SkPaint -> SkPaint;
  InitDistanceFieldFont :
    SkFont -> SkMatrix -> GrTextContext_Options -> SkFont * SkScalar;
  InitDistanceFieldMinMaxScale :
    SkScalar -> SkMatrix -> GrTextContext_Options -> SkScalar * SkScalar
}.

Section StrikeSpec.

Context {X : Collaborators}.

(** [font.refTypefaceOrDefault()]. *)
Definition refTypefaceOrDefault (f : SkFont) : SkTypeface :=
  match getTypeface f with
  | Some tf => tf
  | None => SkTypeface_MakeDefault
  end.

(** The members of [SkStrikeSpecStorage].  The descriptor and the typeface
    are null until [commonSetup] has run. *)
Record SkStrikeSpecStorage : Type := mkStorage {
  fAutoDescriptor : option SkDescriptor;
  fMaskFilter : option SkMaskFilter;
  fPathEffect : option SkPathEffect;
  fTypeface : option SkTypeface;
  fStrikeToSourceRatio : SkScalar
}.

(** Modelled from the spec: the default-constructed storage.  The member
    initialisers are in src/core/SkStrikeSpec.h, not under src/; the spec
    gives the ratio its default 1.0 and the references start null. *)
Definition SkStrikeSpecStorage_default : SkStrikeSpecStorage :=
  mkStorage None None None None SK_Scalar1.

Definition set_fStrikeToSourceRatio (r : SkScalar) (s : SkStrikeSpecStorage)
  : SkStrikeSpecStorage :=
  mkStorage (fAutoDescriptor s) (fMaskFilter s) (fPathEffect s) (fTypeface s) r.

(** [SkStrikeSpecStorage::commonSetup], a method that assigns four members
    of [this]; the storage is passed in and out. *)
Definition commonSetup (font : SkFont) (paint : SkPaint)
           (surfaceProps : SkSurfaceProps)
           (scalerContextFlags : SkScalerContextFlags.t)
           (deviceMatrix : SkMatrix)
           (this : SkStrikeSpecStorage) : SkStrikeSpecStorage :=
  let '(desc, effects) :=
    CreateDescriptorAndEffectsUsingPaint
      font paint surfaceProps scalerContextFlags deviceMatrix in
  mkStorage (Some desc)
            (SkScalerContextEffects.fMaskFilter effects)
            (SkScalerContextEffects.fPathEffect effects)
            (Some (refTypefaceOrDefault font))
            (fStrikeToSourceRatio this).

(** [SkStrikeSpecStorage::MakeMask]. *)
Definition MakeMask (font : SkFont) (paint : SkPaint)
           (surfaceProps : SkSurfaceProps)
           (scalerContextFlags : SkScalerContextFlags.t)
           (deviceMatrix : SkMatrix) : SkStrikeSpecStorage :=
  let storage := SkStrikeSpecStorage_default in
  let storage :=
    commonSetup font paint surfaceProps scalerContextFlags deviceMatrix storage in
  storage.

(** [SkStrikeSpecStorage::MakePath]. *)
Definition MakePath (font : SkFont) (paint : SkPaint)
           (surfaceProps : SkSurfaceProps)
           (scalerContextFlags : SkScalerContextFlags.t) : SkStrikeSpecStorage :=
  let storage := SkStrikeSpecStorage_default in
  let pathPaint := paint in
  let pathFont := font in
  let '(ratio, pathFont, paintOut) := setupForAsPaths pathFont (Some pathPaint) in
  let pathPaint := match paintOut with Some p => p | None => pathPaint end in
  let storage := set_fStrikeToSourceRatio ratio storage in
  let pathFont := setSubpixel false pathFont in
  let storage :=
    commonSetup pathFont pathPaint surfaceProps scalerContextFlags SkMatrix_I storage in
  storage.

(** [SkStrikeSpecStorage::MakeSourceFallback]. *)
Definition MakeSourceFallback (font : SkFont) (paint : SkPaint)
           (surfaceProps : SkSurfaceProps)
           (scalerContextFlags : SkScalerContextFlags.t)
           (maxSourceGlyphDimension : SkScalar) : SkStrikeSpecStorage :=
  let storage := SkStrikeSpecStorage_default in
  let maxAtlasDimension := SkIntToScalar (kSkSideTooBigForAtlas - 2) in
  let runFontTextSize := getSize font in
  let fallbackTextSize :=
    SkScalarFloorToScalar
      (sk_mul (sk_div maxAtlasDimension maxSourceGlyphDimension) runFontTextSize) in
  let fallbackFont := font in
  let fallbackFont := setSize fallbackTextSize fallbackFont in
  let fallbackFont := setSubpixel false fallbackFont in
  let storage :=
    set_fStrikeToSourceRatio (sk_div runFontTextSize fallbackTextSize) storage in
  let storage :=
    commonSetup fallbackFont paint surfaceProps scalerContextFlags SkMatrix_I storage in
  storage.

(** [SkStrikeSpecStorage::MakeCanonicalized]; [paint] is a nullable
    pointer. *)
Definition MakeCanonicalized (font : SkFont) (paint : option SkPaint)
  : SkStrikeSpecStorage :=
  let storage := SkStrikeSpecStorage_default in
  let canonicalizedPaint :=
    match paint with
    | Some p => p
    | None => SkPaint_default
    end in
  if ShouldDrawTextAsPaths font canonicalizedPaint SkMatrix_I then
    let pathFont := font in
    let '(ratio, pathFont, _) := setupForAsPaths pathFont None in
    let storage := set_fStrikeToSourceRatio ratio storage in
    let canonicalizedPaint := SkPaint_default in
    commonSetup pathFont canonicalizedPaint SkSurfaceProps_kLegacyFontHost
                SkScalerContextFlags.kFakeGammaAndBoostContrast SkMatrix_I storage
  else
    commonSetup font canonicalizedPaint SkSurfaceProps_kLegacyFontHost
                SkScalerContextFlags.kFakeGammaAndBoostContrast SkMatrix_I storage.

(** [SkStrikeSpecStorage::MakeDefault]: the call [MakeCanonicalized(defaultFont)]
    leaves the paint to its default argument, the null pointer. *)
Definition MakeDefault : SkStrikeSpecStorage :=
  let defaultFont := SkFont_default in
  MakeCanonicalized defaultFont None.

(** [SkStrikeSpecStorage::MakePDFVector]; [size] is a nullable pointer to an
    [int] ([Some old] when it points to an [int] holding [old]); the
    second component of the result is what it points to afterwards. *)
Definition MakePDFVector (typeface : SkTypeface) (size : option Z)
  : SkStrikeSpecStorage * option Z :=
  let font := SkFont_default in
  let font := setHinting SkFontHinting.kNone font in
  let font := setEdging Edging.kAlias font in
  let font := setTypeface (Some typeface) font in
  let unitsPerEm := getUnitsPerEm typeface in
  let unitsPerEm := if unitsPerEm <=? 0 then 1024 else unitsPerEm in
  let size :=
    match size with
    | Some _ => Some unitsPerEm
    | None => None
    end in
  let font := setSize (SkIntToScalar unitsPerEm) font in
  let storage := SkStrikeSpecStorage_default in
  let storage :=
    commonSetup font SkPaint_default
                (mkSurfaceProps 0 kUnknown_SkPixelGeometry)
                SkScalerContextFlags.kFakeGammaAndBoostContrast SkMatrix_I storage in
  (storage, size).

(** [SkStrikeSpecStorage::MakeSDFT] (compiled when [SK_SUPPORT_GPU]). *)
Definition MakeSDFT (font : SkFont) (paint : SkPaint)
           (surfaceProps : SkSurfaceProps) (deviceMatrix : SkMatrix)
           (options : GrTextContext_Options)
  : SkStrikeSpecStorage * SkScalar * SkScalar :=
  let storage := SkStrikeSpecStorage_default in
  let dfPaint := InitDistanceFieldPaint paint in
  let '(dfFont, ratio) := InitDistanceFieldFont font deviceMatrix options in
  let storage := set_fStrikeToSourceRatio ratio storage in
  let flags := SkScalerContextFlags.kNone in
  let '(minScale, maxScale) :=
    InitDistanceFieldMinMaxScale (getSize font) deviceMatrix options in
  let storage :=
    commonSetup dfFont dfPaint surfaceProps flags SkMatrix_I storage in
  (storage, minScale, maxScale).

(** ** Resolving a strike specification against a cache *)

(** A storage that one of the factories has returned. *)
Inductive Constructed : SkStrikeSpecStorage -> Prop :=
| Constructed_Mask : forall font paint surfaceProps flags deviceMatrix,
    Constructed (MakeMask font paint surfaceProps flags deviceMatrix)
| Constructed_Path : forall font paint surfaceProps flags,
    Constructed (MakePath font paint surfaceProps flags)
| Constructed_SourceFallback : forall font paint surfaceProps flags dim,
    Constructed (MakeSourceFallback font paint surfaceProps flags dim)
| Constructed_Canonicalized : forall font paint,
    Constructed (MakeCanonicalized font paint)
| Constructed_Default :
    Constructed MakeDefault
| Constructed_PDFVector : forall typeface size,
    Constructed (fst (MakePDFVector typeface size))
| Constructed_SDFT : forall font paint surfaceProps deviceMatrix options,
    Constructed (fst (fst (MakeSDFT font paint surfaceProps deviceMatrix options))).

(** The caches are abstract classes; [C] is the state of a cache, and a call
    returns a handle and the cache as the call leaves it. *)
Class SkStrikeCacheInterface (C : Type) : Type := {
  SkScopedStrike : Type;
  cache_findOrCreateScopedStrike :
    SkDescriptor -> SkScalerContextEffects.t -> SkTypeface -> C -> SkScopedStrike * C
}.

Class SkStrikeCache (C : Type) : Type := {
  SkExclusiveStrikePtr : Type;
  cache_findOrCreateStrikeExclusive :
    SkDescriptor -> SkScalerContextEffects.t -> SkTypeface -> C -> SkExclusiveStrikePtr * C
}.

Class GrStrikeCache (C : Type) : Type := {
  GrTextStrike : Type;
  cache_getStrike : SkDescriptor -> C -> GrTextStrike * C
}.

(** The resolvers are [const] methods: they read [this], call the cache and
    return its handle.  The result holds the handle, [this] as the method
    leaves it and the cache as the call leaves it; [None] stands for the
    dereference of a null descriptor or typeface. *)
Definition findOrCreateGrStrike {C : Type} `{GrStrikeCache C}
           (this : SkStrikeSpecStorage) (cache : C)
  : option (GrTextStrike * SkStrikeSpecStorage * C) :=
  match fAutoDescriptor this with
  | Some desc =>
      let '(strike, cache) := cache_getStrike desc cache in
      Some (strike, this, cache)
  | None => None
  end.

Definition findOrCreateScopedStrike {C : Type} `{SkStrikeCacheInterface C}
           (this : SkStrikeSpecStorage) (cache : C)
  : option (SkScopedStrike * SkStrikeSpecStorage * C) :=
  let effects := SkScalerContextEffects.make (fPathEffect this) (fMaskFilter this) in
  match fAutoDescriptor this, fTypeface this with
  | Some desc, Some typeface =>
      let '(strike, cache) :=
        cache_findOrCreateScopedStrike desc effects typeface cache in
      Some (strike, this, cache)
  | _, _ => None
  end.

Definition findOrCreateExclusiveStrike {C : Type} `{SkStrikeCache C}
           (this : SkStrikeSpecStorage) (cache : C)
  : option (SkExclusiveStrikePtr * SkStrikeSpecStorage * C) :=
  let effects := SkScalerContextEffects.make (fPathEffect this) (fMaskFilter this) in
  match fAutoDescriptor this, fTypeface this with
  | Some desc, Some typeface =>
      let '(strike, cache) :=
        cache_findOrCreateStrikeExclusive desc effects typeface cache in
      Some (strike, this, cache)
  | _, _ => None
  end.

(** *** A cache that records what it is asked

    One entry per call, with the arguments of the call; the handle it returns
    is the number of calls made before. *)
Inductive CacheCall : Type :=
| Call_findOrCreateScopedStrike
    (desc : SkDescriptor) (effects : SkScalerContextEffects.t) (typeface : SkTypeface)
| Call_findOrCreateStrikeExclusive
    (desc : SkDescriptor) (effects : SkScalerContextEffects.t) (typeface : SkTypeface)
| Call_getStrike (desc : SkDescriptor).

Definition Recorder : Type := list CacheCall.

Definition record (c : CacheCall) (log : Recorder) : nat * Recorder :=
  (length log, log ++ [c]).

#[export] Instance Recorder_SkStrikeCacheInterface : SkStrikeCacheInterface Recorder := {
  SkScopedStrike := nat;
  cache_findOrCreateScopedStrike desc effects typeface :=
    record (Call_findOrCreateScopedStrike desc effects typeface)
}.

#[export] Instance Recorder_SkStrikeCache : SkStrikeCache Recorder := {
  SkExclusiveStrikePtr := nat;
  cache_findOrCreateStrikeExclusive desc effects typeface :=
    record (Call_findOrCreateStrikeExclusive desc effects typeface)
}.

#[export] Instance Recorder_GrStrikeCache : GrStrikeCache Recorder := {
  GrTextStrike := nat;
  cache_getStrike desc := record (Call_getStrike desc)
}.

Definition call_desc (c : CacheCall) : SkDescriptor :=
  match c with
  | Call_findOrCreateScopedStrike d _ _ => d
  | Call_findOrCreateStrikeExclusive d _ _ => d
  | Call_getStrike d => d
  end.

Definition call_effects (c : CacheCall) : option SkScalerContextEffects.t :=
  match c with
  | Call_findOrCreateScopedStrike _ e _ => Some e
  | Call_findOrCreateStrikeExclusive _ e _ => Some e
  | Call_getStrike _ => None
  end.

Definition call_typeface (c : CacheCall) : option SkTypeface :=
  match c with
  | Call_findOrCreateScopedStrike _ _ t => Some t
  | Call_findOrCreateStrikeExclusive _ _ t => Some t
  | Call_getStrike _ => None
  end.

(** The three resolvers, run against a recorder that has seen no call: the
    storage afterwards and the calls made. *)
Inductive Resolver : Set := ExclusiveStrike | ScopedStrike | GrStrike.

Definition resolve (r : Resolver) (this : SkStrikeSpecStorage)
  : option (SkStrikeSpecStorage * list CacheCall) :=
  match r with
  | ExclusiveStrike =>
      option_map (fun '(_, this', log) => (this', log))
                 (findOrCreateExclusiveStrike this ([] : Recorder))
  | ScopedStrike =>
      option_map (fun '(_, this', log) => (this', log))
                 (findOrCreateScopedStrike this ([] : Recorder))
  | GrStrike =>
      option_map (fun '(_, this', log) => (this', log))
                 (findOrCreateGrStrike this ([] : Recorder))
  end.

(** What the resolvers are said to do: one call, which carries the stored
    descriptor, the stored effects and the stored typeface, and a storage
    that is left as it was. *)
Definition passes_descriptor_effects_typeface (r : Resolver)
           (this : SkStrikeSpecStorage) : Prop :=
  exists c : CacheCall,
    resolve r this = Some (this, [c]) /\
    Some (call_desc c) = fAutoDescriptor this /\
    call_effects c
    = Some (SkScalerContextEffects.make (fPathEffect this) (fMaskFilter this)) /\
    call_typeface c = fTypeface this.

End StrikeSpec.

(** ** The absent helpers, from the spec *)

(** Modelled from the spec: [SkFont::setupForAsPaths], defined in
    src/core/SkFont.cpp, which is not under src/.  The spec (4.1 and the Path
    row of 4.4) has the font forced to a library-defined fixed size with
    hinting disabled, and the ratio returned as requested size over internal
    size.  The fixed size is the parameter [kCanonicalTextSizeForPaths]; the
    spec says nothing of the paint, which is left as it is. *)
Definition setupForAsPaths_spec {P : Type} (kCanonicalTextSizeForPaths : Z)
           (font : SkFont) (paint : option P) : SkScalar * SkFont * option P :=
  let textSize := getSize font in
  let font := setHinting SkFontHinting.kNone font in
  let font := setSize (SkIntToScalar kCanonicalTextSizeForPaths) font in
  (sk_div textSize (SkIntToScalar kCanonicalTextSizeForPaths), font, paint).

(** ** A concrete set of collaborators

    Stand-ins used to run the factories on concrete inputs.  The descriptor
    keeps the five inputs it was built from, so that two descriptors are
    equal exactly when all their inputs are; the effects are the paint's;
    [setupForAsPaths] is the one modelled above at the fixed size 64; text
    is drawn as paths when the paint strokes or the size exceeds 256; the
    distance-field policy picks one of three strike sizes from the horizontal
    scale of the matrix. *)

Record Paint : Set := mkPaint {
  paint_color : Z;
  paint_stroke : bool;
  paint_maskFilter : option SkMaskFilter;
  paint_pathEffect : option SkPathEffect
}.

Record DescriptorInputs : Set := mkDescriptor {
  desc_font : SkFont;
  desc_paint : Paint;
  desc_surfaceProps : SkSurfaceProps;
  desc_flags : SkScalerContextFlags.t;
  desc_matrix : SkMatrix
}.

(** Modelled from the spec: the effects extractor of 4.2, the paint's path
    effect and mask filter, either of which may be absent. *)
Definition EffectsExtractor (p : Paint) : SkScalerContextEffects.t :=
  SkScalerContextEffects.make (paint_pathEffect p) (paint_maskFilter p).

(** The size of the distance-field strike for a text size on screen. *)
Definition dfBucket (scaledTextSize : SkScalar) : Z * Z :=
  if sk_le scaledTextSize (SkIntToScalar 32) then (18, 32)
  else if sk_le scaledTextSize (SkIntToScalar 72) then (32, 72)
  else (72, 162).

Definition Reference (side : Z) : Collaborators := {|
  SkPaint := Paint;
  SkPaint_default := mkPaint 4278190080 false None None;
  SkFont_default :=
    mkFont None (SkIntToScalar 12) SK_Scalar1 SK_Scalar0 false
           Edging.kAntiAlias SkFontHinting.kNormal;
  SkTypeface_MakeDefault := mkTypeface 1 2048;
  SkSurfaceProps_kLegacyFontHost := mkSurfaceProps 0 kRGB_H_SkPixelGeometry;
  kSkSideTooBigForAtlas := side;
  SkDescriptor := DescriptorInputs;
  CreateDescriptorAndEffectsUsingPaint font paint surfaceProps flags matrix :=
    (mkDescriptor font paint surfaceProps flags matrix, EffectsExtractor paint);
  setupForAsPaths := setupForAsPaths_spec 64;
  ShouldDrawTextAsPaths font paint matrix :=
    paint_stroke paint || sk_lt (SkIntToScalar 256) (getSize font);
  GrTextContext_Options := unit;
  InitDistanceFieldPaint paint :=
    mkPaint (paint_color paint) false (Some (MaskFilterRef 0)) (paint_pathEffect paint);
  InitDistanceFieldFont font matrix _ :=
    let dfSize := SkIntToScalar (snd (dfBucket (sk_mul (scaleX matrix) (getSize font)))) in
    (setSize dfSize (setSubpixel true font), sk_div (getSize font) dfSize);
  InitDistanceFieldMinMaxScale textSize matrix _ :=
    let scaled := sk_mul (scaleX matrix) textSize in
    (sk_div (SkIntToScalar (fst (dfBucket scaled))) scaled,
     sk_div (SkIntToScalar (snd (dfBucket scaled))) scaled)
|}.

(** Sample inputs. *)
Definition sampleTypeface : SkTypeface := mkTypeface 7 1000.

Definition sampleFont (size : Z) : SkFont :=
  mkFont (Some sampleTypeface) (SkIntToScalar size) SK_Scalar1 SK_Scalar0 true
         Edging.kSubpixelAntiAlias SkFontHinting.kFull.

Definition samplePaint : Paint :=
  mkPaint 4294901760 false (Some (MaskFilterRef 3)) (Some (PathEffectRef 5)).

Definition sampleProps : SkSurfaceProps := mkSurfaceProps 1 kBGR_V_SkPixelGeometry.

Definition scaleMatrix (s : Z) : SkMatrix :=
  mkMatrix (SkIntToScalar s) SK_Scalar0 SK_Scalar0
           SK_Scalar0 (SkIntToScalar s) SK_Scalar0
           SK_Scalar0 SK_Scalar0 SK_Scalar1.

(** ** Notions used to state further properties *)

(** A value that is not NaN and whose sign bit is [s]. *)
Definition has_sign (s : bool) (x : SkScalar) : Prop :=
  match x with
  | S754_zero s' | S754_infinity s' | S754_finite s' _ _ => s' = s
  | S754_nan => False
  end.

Section ResolverSequences.

Context {X : Collaborators}.

(** One resolver run against a recorder that already holds [log]. *)
Definition resolve_with (r : Resolver) (this : SkStrikeSpecStorage)
           (log : Recorder) : option (SkStrikeSpecStorage * Recorder) :=
  match r with
  | ExclusiveStrike =>
      option_map (fun '(_, this', log') => (this', log'))
                 (findOrCreateExclusiveStrike this log)
  | ScopedStrike =>
      option_map (fun '(_, this', log') => (this', log'))
                 (findOrCreateScopedStrike this log)
  | GrStrike =>
      option_map (fun '(_, this', log') => (this', log'))
                 (findOrCreateGrStrike this log)
  end.

(** A caller that resolves the same storage several times in a row, each
    time with the storage and the cache as the previous call left them. *)
Fixpoint resolve_all (rs : list Resolver) (this : SkStrikeSpecStorage)
         (log : Recorder) : option (SkStrikeSpecStorage * Recorder) :=
  match rs with
  | [] => Some (this, log)
  | r :: rs' =>
      match resolve_with r this log with
      | Some (this', log') => resolve_all rs' this' log'
      | None => None
      end
  end.

(** The call a resolver makes for a descriptor, effects and a typeface. *)
Definition call_of (desc : SkDescriptor) (effects : SkScalerContextEffects.t)
           (typeface : SkTypeface) (r : Resolver) : CacheCall :=
  match r with
  | ExclusiveStrike => Call_findOrCreateStrikeExclusive desc effects typeface
  | ScopedStrike => Call_findOrCreateScopedStrike desc effects typeface
  | GrStrike => Call_getStrike desc
  end.

End ResolverSequences.

(** A value that is not below zero: NaN, a zero of either sign, or a
    positive value. *)
Definition not_negative (x : SkScalar) : Prop :=
  match x with
  | S754_finite true _ _ | S754_infinity true => False
  | _ => True
  end.



(** ** Facts about binary32 arithmetic

    The number of digits of a mantissa is its binary logarithm plus one;
    rounding returns well-formed values, and is exact on mantissas that end
    in enough zeros. *)

Lemma fexp_eq x : fexp prec emax x = Z.max (x - 24) (-149).
Proof. reflexivity. Qed.

Lemma digits2_pos_log2 p : Z.pos (digits2_pos p) = Z.log2 (Z.pos p) + 1.
Proof.
  induction p as [p IH | p IH |]; cbn [digits2_pos]; try reflexivity.
  - rewrite Pos2Z.inj_succ, IH.
    change (Z.pos p~1) with (2 * Z.pos p + 1).
    rewrite Z.log2_succ_double by lia. lia.
  - rewrite Pos2Z.inj_succ, IH.
    change (Z.pos p~0) with (2 * Z.pos p).
    rewrite Z.log2_double by lia. lia.
Qed.

Lemma Zdigits2_nonneg m : 0 <= m -> 0 <= Zdigits2 m.
Proof. destruct m; cbn; lia. Qed.


Lemma Zdigits2_log2 m : 0 < m -> Zdigits2 m = Z.log2 m + 1.
Proof. destruct m; try lia. intros _. apply digits2_pos_log2. Qed.

Lemma Zdigits2_shiftr m n :
  0 <= m -> 0 <= n -> Zdigits2 (Z.shiftr m n) = Z.max 0 (Zdigits2 m - n).
Proof.
  intros Hm Hn.
  assert (Hm' : m = 0 \/ 0 < m) by lia. destruct Hm' as [-> | Hpos].
  - rewrite Z.shiftr_0_l. cbn. lia.
  - destruct (Z.eq_dec (Z.shiftr m n) 0) as [E | E].
    + rewrite E. cbn [Zdigits2].
      apply Z.shiftr_eq_0_iff in E. rewrite Zdigits2_log2 by lia. lia.
    + assert (0 <= Z.shiftr m n) by (apply Z.shiftr_nonneg; lia).
      rewrite !Zdigits2_log2 by lia.
      rewrite Z.log2_shiftr by lia.
      assert (~ Z.log2 m < n).
      { intros Hlt. apply E. apply Z.shiftr_eq_0; lia. }
      lia.
Qed.

Lemma Zdigits2_le m n : 0 <= m -> m <= n -> Zdigits2 m <= Zdigits2 n.
Proof.
  intros Hm Hmn.
  assert (Hm' : m = 0 \/ 0 < m) by lia. destruct Hm' as [-> | Hpos].
  - change (Zdigits2 0) with 0. apply Zdigits2_nonneg. lia.
  - rewrite !Zdigits2_log2 by lia.
    pose proof (Z.log2_le_mono m n Hmn). lia.
Qed.

Lemma iter_pos_eq {A} (f : A -> A) n : forall x, iter_pos f n x = Pos.iter f x n.
Proof.
  induction n as [n IH | n IH |]; intros x; cbn [iter_pos Pos.iter].
  - rewrite !IH. rewrite <- !Pos.iter_swap. reflexivity.
  - rewrite !IH. reflexivity.
  - reflexivity.
Qed.

Lemma shr_1_m r : 0 <= shr_m r -> shr_m (shr_1 r) = Z.div2 (shr_m r).
Proof.
  destruct r as [m b s]. cbn [shr_m].
  destruct m as [| [p | p |] | p]; intros H; cbn; try reflexivity; lia.
Qed.

Lemma shr_m_iter n : forall r,
  0 <= shr_m r ->
  shr_m (Pos.iter shr_1 r n) = Z.shiftr (shr_m r) (Z.pos n).
Proof.
  induction n using Pos.peano_ind; intros r Hr.
  - cbn [Pos.iter]. rewrite shr_1_m by exact Hr. rewrite Z.div2_spec. reflexivity.
  - rewrite Pos.iter_succ_r. rewrite IHn.
    + rewrite shr_1_m by exact Hr. rewrite Z.div2_spec.
      rewrite Z.shiftr_shiftr by lia. f_equal. lia.
    + rewrite shr_1_m by exact Hr. rewrite Z.div2_spec.
      apply Z.shiftr_nonneg. exact Hr.
Qed.

Lemma shr_record_of_loc_m m l : shr_m (shr_record_of_loc m l) = m.
Proof. destruct l as [| []]; reflexivity. Qed.

(** The mantissa and exponent that [shr_fexp] leaves. *)
Lemma shr_fexp_spec m e l :
  0 <= m ->
  let n := Z.max 0 (fexp prec emax (Zdigits2 m + e) - e) in
  shr_m (fst (shr_fexp prec emax m e l)) = Z.shiftr m n
  /\ snd (shr_fexp prec emax m e l) = e + n.
Proof.
  intros Hm n. unfold shr_fexp, shr.
  subst n.
  destruct (fexp prec emax (Zdigits2 m + e) - e) as [| p | p] eqn:E; cbn [fst snd].
  - rewrite shr_record_of_loc_m. cbn. split; [reflexivity | lia].
  - rewrite iter_pos_eq, shr_m_iter by (rewrite shr_record_of_loc_m; exact Hm).
    rewrite shr_record_of_loc_m.
    replace (Z.max 0 (Z.pos p)) with (Z.pos p) by lia. split; reflexivity.
  - rewrite shr_record_of_loc_m. replace (Z.max 0 (Z.neg p)) with 0 by lia.
    cbn. split; [reflexivity | lia].
Qed.

Lemma round_nearest_even_bounds m l :
  0 <= m -> m <= round_nearest_even m l <= m + 1.
Proof.
  intros Hm. destruct l as [| []]; cbn [round_nearest_even]; try lia.
  destruct (Z.even m); lia.
Qed.

Lemma Zdigits2_succ_le m : 0 <= m -> Zdigits2 (m + 1) <= Zdigits2 m + 1.
Proof.
  intros Hm.
  assert (Hm' : m = 0 \/ 0 < m) by lia. destruct Hm' as [-> | Hpos].
  - cbn. lia.
  - rewrite !Zdigits2_log2 by lia.
    pose proof (Z.log2_succ_le m) as H. unfold Z.succ in H. lia.
Qed.

(** Rounding a non-negative mantissa whose exponent is not above the
    canonical one gives a well-formed value. *)
Lemma binary_round_aux_valid sx mx ex lx :
  0 <= mx ->
  ex <= fexp prec emax (Zdigits2 mx + ex) ->
  valid_binary prec emax (binary_round_aux prec emax sx mx ex lx) = true.
Proof.
  intros Hmx Hex. unfold binary_round_aux.
  pose proof (shr_fexp_spec mx ex lx Hmx) as H1. cbv zeta in H1.
  destruct (shr_fexp prec emax mx ex lx) as [mrs1 e1]. cbn [fst snd] in H1.
  destruct H1 as [Hm1 He1].
  set (m2 := round_nearest_even (shr_m mrs1) (loc_of_shr_record mrs1)).
  assert (Hm1nn : 0 <= shr_m mrs1).
  { rewrite Hm1. apply Z.shiftr_nonneg. exact Hmx. }
  pose proof (round_nearest_even_bounds (shr_m mrs1) (loc_of_shr_record mrs1) Hm1nn)
    as Hround. fold m2 in Hround.
  assert (Hm2 : 0 <= m2) by lia.
  pose proof (shr_fexp_spec m2 e1 loc_Exact Hm2) as H2. cbv zeta in H2.
  destruct (shr_fexp prec emax m2 e1 loc_Exact) as [mrs2 e2]. cbn [fst snd] in H2.
  destruct H2 as [Hm3 He2].
  destruct (shr_m mrs2) as [| m3 | m3] eqn:E3; try reflexivity.
  destruct (e2 <=? emax - prec) eqn:Ebound; [| reflexivity].
  cbn [valid_binary]. unfold bounded. rewrite Ebound, andb_true_r.
  unfold canonical_mantissa. apply Z.eqb_eq.
  change (Z.pos (digits2_pos m3)) with (Zdigits2 (Z.pos m3)).
  rewrite Hm3.
  assert (Hd1 : Zdigits2 (shr_m mrs1)
                = Z.max 0 (Zdigits2 mx
                           - Z.max 0 (fexp prec emax (Zdigits2 mx + ex) - ex))).
  { rewrite Hm1. apply Zdigits2_shiftr; lia. }
  assert (Hd2lo : Zdigits2 (shr_m mrs1) <= Zdigits2 m2)
    by (apply Zdigits2_le; lia).
  assert (Hd2hi : Zdigits2 m2 <= Zdigits2 (shr_m mrs1) + 1).
  { etransitivity; [apply (Zdigits2_le m2 (shr_m mrs1 + 1)); lia |].
    apply Zdigits2_succ_le. exact Hm1nn. }
  rewrite Zdigits2_shiftr by lia.
  assert (Hpos3 : 0 < Zdigits2 (Z.shiftr m2 (Z.max 0 (fexp prec emax (Zdigits2 m2 + e1) - e1)))).
  { rewrite <- Hm3. cbn. lia. }
  rewrite Zdigits2_shiftr in Hpos3 by lia.
  pose proof (Zdigits2_nonneg mx Hmx) as Hdx.
  rewrite !fexp_eq in *. lia.
Qed.

Lemma canonical_iff m e :
  canonical_mantissa prec emax m e = true
  <-> Z.max (Z.log2 (Z.pos m) + 1 + e - 24) (-149) = e.
Proof.
  unfold canonical_mantissa. rewrite Z.eqb_eq, fexp_eq, digits2_pos_log2. reflexivity.
Qed.

Lemma bounded_iff m e :
  bounded prec emax m e = true
  <-> Z.max (Z.log2 (Z.pos m) + 1 + e - 24) (-149) = e /\ e <= 104.
Proof.
  unfold bounded. rewrite andb_true_iff, canonical_iff, Z.leb_le. reflexivity.
Qed.

Lemma SFmul_valid x y :
  valid_binary prec emax x = true ->
  valid_binary prec emax y = true ->
  valid_binary prec emax (SFmul prec emax x y) = true.
Proof.
  destruct x as [sx | sx | | sx mx ex], y as [sy | sy | | sy my ey];
    try reflexivity.
  cbn [valid_binary SFmul]. intros Hx Hy.
  apply bounded_iff in Hx, Hy.
  apply binary_round_aux_valid; [lia |].
  rewrite fexp_eq. cbn [Zdigits2]. rewrite digits2_pos_log2, Pos2Z.inj_mul.
  pose proof (Z.log2_mul_below (Z.pos mx) (Z.pos my) ltac:(lia) ltac:(lia)).
  pose proof (Z.log2_nonneg (Z.pos mx)). pose proof (Z.log2_nonneg (Z.pos my)).
  lia.
Qed.

Lemma div_digits_lower m1 m2 s :
  0 < m1 -> 0 < m2 -> 0 <= s ->
  0 <= Z.log2 m1 + s - (Z.log2 m2 + 1) ->
  Z.log2 m1 + s - (Z.log2 m2 + 1) <= Z.log2 (m1 * 2 ^ s / m2).
Proof.
  intros H1 H2 Hs Hk.
  set (k := Z.log2 m1 + s - (Z.log2 m2 + 1)) in *.
  assert (Hq : 2 ^ k <= m1 * 2 ^ s / m2).
  { apply Z.div_le_lower_bound; [lia |].
    destruct (Z.log2_spec m1 H1) as [Hlo1 _].
    destruct (Z.log2_spec m2 H2) as [_ Hhi2].
    assert (Hpk : 0 < 2 ^ k) by (apply Z.pow_pos_nonneg; lia).
    assert (Hps : 0 < 2 ^ s) by (apply Z.pow_pos_nonneg; lia).
    assert (E : 2 ^ Z.succ (Z.log2 m2) * 2 ^ k = 2 ^ Z.log2 m1 * 2 ^ s).
    { pose proof (Z.log2_nonneg m1). pose proof (Z.log2_nonneg m2).
      rewrite <- !Z.pow_add_r by lia. f_equal. unfold k. lia. }
    nia. }
  apply Z.log2_le_pow2; [| exact Hq].
  assert (0 < 2 ^ k) by (apply Z.pow_pos_nonneg; lia). lia.
Qed.

Lemma SFdiv_valid x y :
  valid_binary prec emax x = true ->
  valid_binary prec emax y = true ->
  valid_binary prec emax (SFdiv prec emax x y) = true.
Proof.
  destruct x as [sx | sx | | sx mx ex], y as [sy | sy | | sy my ey];
    try reflexivity.
  cbn [valid_binary SFdiv]. intros Hx Hy.
  apply bounded_iff in Hx, Hy.
  unfold SFdiv_core_binary.
  cbn [Zdigits2]. rewrite !digits2_pos_log2, fexp_eq.
  set (d1 := Z.log2 (Z.pos mx) + 1) in *.
  set (d2 := Z.log2 (Z.pos my) + 1) in *.
  set (e' := Z.min (Z.max (d1 + ex - (d2 + ey) - 24) (-149)) (ex - ey)).
  set (s := ex - ey - e').
  assert (Hs : 0 <= s) by (unfold s, e'; lia).
  set (m' := match s with Z.pos _ => Z.shiftl (Z.pos mx) s | 0 => Z.pos mx | Z.neg _ => 0 end).
  assert (Hm' : m' = Z.pos mx * 2 ^ s).
  { unfold m'. destruct s as [| p | p] eqn:Es; try lia.
    apply Z.shiftl_mul_pow2. lia. }
  pose proof (Z_div_mod m' (Z.pos my) ltac:(lia)) as Hdm.
  unfold Z.div. destruct (Z.div_eucl m' (Z.pos my)) as [q r] eqn:Edm.
  assert (Hq : q = m' / Z.pos my) by (unfold Z.div; rewrite Edm; reflexivity).
  assert (Hps : 0 < 2 ^ s) by (apply Z.pow_pos_nonneg; lia).
  assert (Hqnn : 0 <= q).
  { rewrite Hq. apply Z.div_pos; [rewrite Hm' |]; lia. }
  apply binary_round_aux_valid; [exact Hqnn |].
  rewrite fexp_eq.
  destruct (Z_le_gt_dec e' (-149)) as [Hlow | Hhigh]; [lia |].
  assert (Hk : 0 <= Z.log2 (Z.pos mx) + s - (Z.log2 (Z.pos my) + 1))
    by (unfold s, e', d1, d2 in *; lia).
  pose proof (div_digits_lower (Z.pos mx) (Z.pos my) s ltac:(lia) ltac:(lia) Hs Hk)
    as Hlow.
  rewrite <- Hm', <- Hq in Hlow.
  assert (Hqpos : 0 < q).
  { destruct (Z.eq_dec q 0) as [-> | Hne]; [| lia].
    change (Z.log2 0) with 0 in Hlow.
    unfold s, e', d1, d2 in *. lia. }
  rewrite Zdigits2_log2 by exact Hqpos.
  unfold s, e', d1, d2 in *. lia.
Qed.

Lemma iter_xO_shiftl m d : Z.pos (Pos.iter xO m d) = Z.shiftl (Z.pos m) (Z.pos d).
Proof.
  cbn [Z.shiftl]. revert m.
  induction d using Pos.peano_ind; intros m.
  - reflexivity.
  - rewrite !Pos.iter_succ. rewrite <- IHd. reflexivity.
Qed.

Lemma binary_round_valid sx mx ex :
  valid_binary prec emax (binary_round prec emax sx mx ex) = true.
Proof.
  unfold binary_round, shl_align.
  rewrite fexp_eq, digits2_pos_log2.
  destruct (Z.max (Z.log2 (Z.pos mx) + 1 + ex - 24) (-149) - ex) as [| d | d] eqn:E.
  - apply binary_round_aux_valid; [lia |].
    rewrite fexp_eq. cbn [Zdigits2]. rewrite digits2_pos_log2. lia.
  - apply binary_round_aux_valid; [lia |].
    rewrite fexp_eq. cbn [Zdigits2]. rewrite digits2_pos_log2. lia.
  - apply binary_round_aux_valid; [lia |].
    rewrite fexp_eq. cbn [Zdigits2]. rewrite digits2_pos_log2.
    rewrite iter_xO_shiftl, Z.log2_shiftl by lia. lia.
Qed.

Lemma binary_normalize_valid m e sz :
  valid_binary prec emax (binary_normalize prec emax m e sz) = true.
Proof.
  destruct m; cbn [binary_normalize]; [reflexivity | |]; apply binary_round_valid.
Qed.

Lemma shr_iter_shifted k : forall m,
  Pos.iter shr_1 (Build_shr_record (Z.pos (Pos.iter xO m k)) false false) k
  = Build_shr_record (Z.pos m) false false.
Proof.
  induction k using Pos.peano_ind; intros m.
  - reflexivity.
  - rewrite Pos.iter_succ_r. rewrite Pos.iter_succ. cbn [shr_1 orb]. apply IHk.
Qed.

Lemma binary_round_aux_canonical s m e :
  bounded prec emax m e = true ->
  binary_round_aux prec emax s (Z.pos m) e loc_Exact = S754_finite s m e.
Proof.
  intros Hb. pose proof Hb as Hb'. apply bounded_iff in Hb'. destruct Hb' as [Hc He].
  assert (Hn : fexp prec emax (Zdigits2 (Z.pos m) + e) - e = 0).
  { rewrite fexp_eq. cbn [Zdigits2]. rewrite digits2_pos_log2. lia. }
  unfold binary_round_aux, shr_fexp. rewrite Hn. cbn [shr shr_record_of_loc shr_m
    loc_of_shr_record round_nearest_even].
  rewrite Hn. cbn [shr shr_record_of_loc shr_m].
  apply Z.leb_le in He. change (emax - prec) with 104. rewrite He. reflexivity.
Qed.

Lemma binary_round_aux_shifted s m e k :
  bounded prec emax m (e + Z.pos k) = true ->
  binary_round_aux prec emax s (Z.pos (Pos.iter xO m k)) e loc_Exact
  = S754_finite s m (e + Z.pos k).
Proof.
  intros Hb. pose proof Hb as Hb'. apply bounded_iff in Hb'. destruct Hb' as [Hc He].
  assert (Hn : fexp prec emax (Zdigits2 (Z.pos (Pos.iter xO m k)) + e) - e = Z.pos k).
  { rewrite fexp_eq. cbn [Zdigits2]. rewrite digits2_pos_log2.
    rewrite iter_xO_shiftl, Z.log2_shiftl by lia. lia. }
  assert (Hn' : fexp prec emax (Zdigits2 (Z.pos m) + (e + Z.pos k)) - (e + Z.pos k) = 0).
  { rewrite fexp_eq. cbn [Zdigits2]. rewrite digits2_pos_log2. lia. }
  unfold binary_round_aux, shr_fexp. rewrite Hn.
  cbn [shr shr_record_of_loc]. rewrite iter_pos_eq, shr_iter_shifted.
  cbn [shr_m loc_of_shr_record round_nearest_even]. rewrite Hn'.
  cbn [shr shr_record_of_loc shr_m].
  apply Z.leb_le in He. change (emax - prec) with 104. rewrite He. reflexivity.
Qed.

(** Conversion of a positive integer below 2^24 is exact: the result is
    finite and positive. *)
Lemma binary_normalize_small q :
  Z.log2 (Z.pos q) < 24 ->
  exists m e, binary_normalize prec emax (Z.pos q) 0 false = S754_finite false m e.
Proof.
  intros Hq. cbn [binary_normalize]. unfold binary_round, shl_align.
  rewrite fexp_eq, digits2_pos_log2.
  pose proof (Z.log2_nonneg (Z.pos q)) as Hnn.
  destruct (Z.max (Z.log2 (Z.pos q) + 1 + 0 - 24) (-149) - 0) as [| d | d] eqn:E.
  - eexists _, _. apply binary_round_aux_canonical. apply bounded_iff. lia.
  - lia.
  - eexists _, _. apply binary_round_aux_canonical. apply bounded_iff.
    rewrite iter_xO_shiftl, Z.log2_shiftl by lia. lia.
Qed.

(** A rounded value has the sign it was given, or is NaN. *)
Lemma binary_round_aux_sign sx mx ex lx :
  match binary_round_aux prec emax sx mx ex lx with
  | S754_zero s | S754_infinity s | S754_finite s _ _ => s = sx
  | S754_nan => True
  end.
Proof.
  unfold binary_round_aux.
  destruct (shr_fexp prec emax mx ex lx) as [mrs1 e1].
  destruct (shr_fexp prec emax _ e1 loc_Exact) as [mrs2 e2].
  destruct (shr_m mrs2); [reflexivity | | exact I].
  destruct (e2 <=? emax - prec); reflexivity.
Qed.


(** *** The operations on scalars *)

Lemma SkIntToScalar_well_formed n : well_formed (SkIntToScalar n) = true.
Proof. apply binary_normalize_valid. Qed.

Lemma sk_mul_well_formed x y :
  well_formed x = true -> well_formed y = true -> well_formed (sk_mul x y) = true.
Proof. apply SFmul_valid. Qed.

Lemma sk_div_well_formed x y :
  well_formed x = true -> well_formed y = true -> well_formed (sk_div x y) = true.
Proof. apply SFdiv_valid. Qed.

Lemma binary_normalize_neg_not_positive n :
  sk_lt SK_Scalar0 (binary_normalize prec emax (Z.neg n) 0 true) = false.
Proof.
  cbn [binary_normalize]. unfold binary_round.
  destruct (shl_align n 0 _) as [mz ez].
  pose proof (binary_round_aux_sign true (Z.pos mz) ez loc_Exact) as Hs.
  destruct (binary_round_aux prec emax true (Z.pos mz) ez loc_Exact);
    try subst; reflexivity.
Qed.

Lemma shiftr_mantissa_zero_iff m e :
  e < 0 -> (Z.shiftr (Z.pos m) (- e) = 0 <-> Z.log2 (Z.pos m) < - e).
Proof.
  intros He. rewrite Z.shiftr_eq_0_iff. split; [intros [H | [_ H]]; [lia | exact H] |].
  intros H. right. split; [lia | exact H].
Qed.

Lemma sk_le_one_compare m e :
  sk_le SK_Scalar1 (S754_finite false m e) = true
  <-> match Z.compare (-23) e with
      | Lt => True
      | Eq => 8388608 <= Z.pos m
      | Gt => False
      end.
Proof.
  change SK_Scalar1 with (S754_finite false 8388608 (-23)).
  unfold sk_le, SFleb. cbn [SFcompare].
  destruct (Z.compare (-23) e).
  - unfold Z.le. cbn [Z.compare]. unfold Pos.compare.
    destruct (Pos.compare_cont Eq 8388608 m); split; congruence.
  - split; [intros; exact I | reflexivity].
  - split; [discriminate | intros []].
Qed.

Lemma sk_le_one_finite m e :
  bounded prec emax m e = true ->
  (sk_le SK_Scalar1 (S754_finite false m e) = true <-> - e <= Z.log2 (Z.pos m)).
Proof.
  intros Hb. apply bounded_iff in Hb. destruct Hb as [Hc He].
  pose proof (Z.log2_nonneg (Z.pos m)) as Hnn.
  rewrite sk_le_one_compare.
  destruct (Z.compare_spec (-23) e) as [E | E | E].
  - assert (Hlog : Z.log2 (Z.pos m) = 23) by lia.
    destruct (Z.log2_spec (Z.pos m) ltac:(lia)) as [Hlo _].
    rewrite Hlog in Hlo. change (2 ^ 23) with 8388608 in Hlo. lia.
  - split; [lia | intros; exact I].
  - split; [intros [] | lia].
Qed.

(** The floor of a well-formed value is positive exactly when the value is
    at least 1. *)
Lemma sk_float_floor_positive_iff p :
  well_formed p = true ->
  (sk_lt SK_Scalar0 (sk_float_floor p) = true <-> sk_le SK_Scalar1 p = true).
Proof.
  destruct p as [s | s | | s m e]; cbn [sk_float_floor well_formed valid_binary].
  - intros _. split; discriminate.
  - intros _. destruct s; split; try discriminate; reflexivity.
  - intros _. split; discriminate.
  - intros Hb. destruct s.
    + (* negative *)
      assert (Hle : sk_le SK_Scalar1 (S754_finite true m e) = false) by reflexivity.
      rewrite Hle.
      destruct (0 <=? e); [split; discriminate |].
      cbn [andb]. cbv zeta.
      destruct (if negb _ then _ else _) as [| n | n] eqn:En.
      * split; discriminate.
      * cbn [Z.opp]. rewrite binary_normalize_neg_not_positive.
        split; discriminate.
      * exfalso.
        assert (0 <= Z.shiftr (Z.pos m) (- e)) by (apply Z.shiftr_nonneg; lia).
        destruct (negb _) in En; lia.
    + rewrite (sk_le_one_finite m e Hb).
      pose proof Hb as Hb'. apply bounded_iff in Hb'. destruct Hb' as [Hc He].
      pose proof (Z.log2_nonneg (Z.pos m)) as Hnn.
      destruct (0 <=? e) eqn:E0.
      * apply Z.leb_le in E0. split; [lia | reflexivity].
      * apply Z.leb_gt in E0. cbn [andb].
        pose proof (shiftr_mantissa_zero_iff m e E0) as Hz.
        destruct (Z.shiftr (Z.pos m) (- e)) as [| q | q] eqn:Eq.
        -- split; [discriminate | lia].
        -- assert (Hq : Z.log2 (Z.pos q) < 24).
           { rewrite <- Eq, Z.log2_shiftr by lia. lia. }
           destruct (binary_normalize_small q Hq) as (m' & e' & ->).
           split; [| reflexivity]. intros _.
           assert (~ Z.log2 (Z.pos m) < - e) by (intros H; apply Hz in H; lia).
           lia.
        -- assert (0 <= Z.shiftr (Z.pos m) (- e)) by (apply Z.shiftr_nonneg; lia).
           lia.
Qed.

Lemma sk_lt_one_compare m e :
  sk_lt (S754_finite false m e) SK_Scalar1 = true
  <-> match Z.compare e (-23) with
      | Lt => True
      | Eq => Z.pos m < 8388608
      | Gt => False
      end.
Proof.
  change SK_Scalar1 with (S754_finite false 8388608 (-23)).
  unfold sk_lt, SFltb. cbn [SFcompare].
  destruct (Z.compare e (-23)).
  - unfold Z.lt. cbn [Z.compare]. unfold Pos.compare.
    destruct (Pos.compare_cont Eq m 8388608); split; congruence.
  - split; [intros; exact I | reflexivity].
  - split; [discriminate | intros []].
Qed.

Lemma sk_lt_one_finite m e :
  bounded prec emax m e = true ->
  (sk_lt (S754_finite false m e) SK_Scalar1 = true <-> Z.log2 (Z.pos m) < - e).
Proof.
  intros Hb. apply bounded_iff in Hb. destruct Hb as [Hc He].
  pose proof (Z.log2_nonneg (Z.pos m)) as Hnn.
  rewrite sk_lt_one_compare.
  destruct (Z.compare_spec e (-23)) as [E | E | E].
  - assert (Hlog : Z.log2 (Z.pos m) = 23) by lia.
    destruct (Z.log2_spec (Z.pos m) ltac:(lia)) as [Hlo _].
    rewrite Hlog in Hlo. change (2 ^ 23) with 8388608 in Hlo. lia.
  - split; [lia | intros; exact I].
  - split; [intros [] | lia].
Qed.

(** The floor of a well-formed value in [0, 1) is a zero. *)
Lemma sk_float_floor_below_one p :
  well_formed p = true ->
  sk_le SK_Scalar0 p = true -> sk_lt p SK_Scalar1 = true ->
  exists s, sk_float_floor p = S754_zero s.
Proof.
  destruct p as [s | s | | s m e]; cbn [sk_float_floor well_formed valid_binary].
  - intros _ _ _. exists s. reflexivity.
  - intros _ H0 H1. destruct s; discriminate.
  - intros _ H0. discriminate.
  - intros Hb H0 H1. destruct s; [discriminate |].
    apply (sk_lt_one_finite m e Hb) in H1.
    pose proof (Z.log2_nonneg (Z.pos m)) as Hnn.
    destruct (0 <=? e) eqn:E0; [apply Z.leb_le in E0; lia |].
    apply Z.leb_gt in E0. cbn [andb].
    assert (Hz : Z.shiftr (Z.pos m) (- e) = 0).
    { apply shiftr_mantissa_zero_iff; lia. }
    rewrite Hz. exists false. reflexivity.
Qed.

(** Division by 64 and multiplication by 64 are exact on normal values that
    stay in the normal range: only the exponent moves. *)
Lemma sk_div_by_64 s m e :
  bounded prec emax m e = true -> -143 <= e ->
  sk_div (S754_finite s m e) (SkIntToScalar 64) = S754_finite s m (e - 6).
Proof.
  intros Hb He. pose proof Hb as Hb'. apply bounded_iff in Hb'.
  destruct Hb' as [Hc Hhi].
  assert (Hlog : Z.log2 (Z.pos m) = 23) by lia.
  change (SkIntToScalar 64) with (S754_finite false 8388608 (-17)).
  unfold sk_div. cbn [SFdiv]. unfold SFdiv_core_binary.
  cbn [Zdigits2]. rewrite digits2_pos_log2, Hlog, fexp_eq.
  change (Z.pos (digits2_pos 8388608)) with 24.
  assert (Hdiv : forall k, 0 <= k ->
            Z.div_eucl (Z.pos m * 2 ^ (23 + k)) 8388608 = (Z.pos m * 2 ^ k, 0)).
  { intros k Hk.
    pose proof (Z_div_mod (Z.pos m * 2 ^ (23 + k)) 8388608 ltac:(lia)) as Hdm.
    destruct (Z.div_eucl (Z.pos m * 2 ^ (23 + k)) 8388608) as [q r].
    rewrite Z.pow_add_r in Hdm by lia. change (2 ^ 23) with 8388608 in Hdm.
    assert (0 < 2 ^ k) by (apply Z.pow_pos_nonneg; lia).
    assert (q = Z.pos m * 2 ^ k) by nia. assert (r = 0) by nia.
    subst. reflexivity. }
  destruct (Z.eq_dec e (-143)) as [-> | Hne].
  - change (Z.min (Z.max (23 + 1 + -143 - (24 + -17) - 24) (-149)) (-143 - -17))
      with (-149).
    change (-143 - -17 - -149) with 23.
    rewrite Z.shiftl_mul_pow2 by lia.
    change (Z.pos m * 2 ^ 23) with (Z.pos m * 2 ^ (23 + 0)).
    rewrite (Hdiv 0) by lia. rewrite Z.mul_1_r.
    change (new_location 8388608 0) with loc_Exact. rewrite xorb_false_r.
    apply binary_round_aux_canonical. apply bounded_iff. lia.
  - replace (Z.min (Z.max (23 + 1 + e - (24 + -17) - 24) (-149)) (e - -17))
      with (e - 7) by lia.
    replace (e - -17 - (e - 7)) with 24 by lia.
    rewrite Z.shiftl_mul_pow2 by lia.
    change (Z.pos m * 2 ^ 24) with (Z.pos m * 2 ^ (23 + 1)).
    rewrite (Hdiv 1) by lia.
    replace (Z.pos m * 2 ^ 1) with (Z.pos (Pos.iter xO m 1))
      by (cbn [Pos.iter]; lia).
    change (new_location 8388608 0) with loc_Exact. rewrite xorb_false_r.
    rewrite binary_round_aux_shifted.
    + f_equal. lia.
    + apply bounded_iff. lia.
Qed.

Lemma sk_mul_by_64 s m e :
  bounded prec emax m (e + 6) = true ->
  sk_mul (SkIntToScalar 64) (S754_finite s m e) = S754_finite s m (e + 6).
Proof.
  intros Hb.
  change (SkIntToScalar 64) with (S754_finite false 8388608 (-17)).
  unfold sk_mul. cbn [SFmul xorb].
  change (8388608 * m)%positive with (Pos.iter xO m 23).
  rewrite binary_round_aux_shifted.
  - f_equal. lia.
  - replace (-17 + e + 23) with (e + 6) by lia. exact Hb.
Qed.

(** ** Properties of the factories *)

Section FactoryFacts.

Context {X : Collaborators}.

Lemma commonSetup_ratio font paint props flags matrix this :
  fStrikeToSourceRatio (commonSetup font paint props flags matrix this)
  = fStrikeToSourceRatio this.
Proof.
  unfold commonSetup.
  destruct (CreateDescriptorAndEffectsUsingPaint font paint props flags matrix).
  reflexivity.
Qed.

Lemma commonSetup_fields font paint props flags matrix this :
  let de := CreateDescriptorAndEffectsUsingPaint font paint props flags matrix in
  commonSetup font paint props flags matrix this
  = mkStorage (Some (fst de))
              (SkScalerContextEffects.fMaskFilter (snd de))
              (SkScalerContextEffects.fPathEffect (snd de))
              (Some (refTypefaceOrDefault font))
              (fStrikeToSourceRatio this).
Proof.
  unfold commonSetup.
  destruct (CreateDescriptorAndEffectsUsingPaint font paint props flags matrix).
  reflexivity.
Qed.

(** Every factory ends in [commonSetup]. *)
Lemma Constructed_commonSetup this :
  Constructed this ->
  exists font paint props flags matrix ratio,
    this = commonSetup font paint props flags matrix
                       (set_fStrikeToSourceRatio ratio SkStrikeSpecStorage_default).
Proof.
  intros H; destruct H.
  - exists font, paint, surfaceProps, flags, deviceMatrix, SK_Scalar1. reflexivity.
  - unfold MakePath.
    destruct (setupForAsPaths font (Some paint)) as [[ratio pathFont] paintOut].
    eexists _, _, _, _, _, ratio. reflexivity.
  - unfold MakeSourceFallback. eexists _, _, _, _, _, _. reflexivity.
  - unfold MakeCanonicalized.
    destruct (ShouldDrawTextAsPaths _ _ _).
    + destruct (setupForAsPaths font None) as [[ratio pathFont] paintOut].
      eexists _, _, _, _, _, ratio. reflexivity.
    + eexists _, _, _, _, _, SK_Scalar1. reflexivity.
  - unfold MakeDefault, MakeCanonicalized.
    destruct (ShouldDrawTextAsPaths _ _ _).
    + destruct (setupForAsPaths SkFont_default None) as [[ratio pathFont] paintOut].
      eexists _, _, _, _, _, ratio. reflexivity.
    + eexists _, _, _, _, _, SK_Scalar1. reflexivity.
  - unfold MakePDFVector. cbn [fst].
    eexists _, _, _, _, _, SK_Scalar1. reflexivity.
  - unfold MakeSDFT.
    destruct (InitDistanceFieldFont font deviceMatrix options) as [dfFont ratio].
    destruct (InitDistanceFieldMinMaxScale (getSize font) deviceMatrix options)
      as [minScale maxScale].
    cbn [fst]. eexists _, _, _, _, _, ratio. reflexivity.
Qed.

Lemma MakeSDFT_unfold font paint surfaceProps deviceMatrix options :
  MakeSDFT font paint surfaceProps deviceMatrix options
  = (commonSetup (fst (InitDistanceFieldFont font deviceMatrix options))
                 (InitDistanceFieldPaint paint) surfaceProps
                 SkScalerContextFlags.kNone SkMatrix_I
                 (set_fStrikeToSourceRatio
                    (snd (InitDistanceFieldFont font deviceMatrix options))
                    SkStrikeSpecStorage_default),
     fst (InitDistanceFieldMinMaxScale (getSize font) deviceMatrix options),
     snd (InitDistanceFieldMinMaxScale (getSize font) deviceMatrix options)).
Proof.
  unfold MakeSDFT.
  destruct (InitDistanceFieldFont font deviceMatrix options) as [dfFont ratio].
  destruct (InitDistanceFieldMinMaxScale (getSize font) deviceMatrix options)
    as [minScale maxScale].
  reflexivity.
Qed.

Lemma MakeMask_fields font paint surfaceProps flags deviceMatrix :
  let de := CreateDescriptorAndEffectsUsingPaint
              font paint surfaceProps flags deviceMatrix in
  fAutoDescriptor (MakeMask font paint surfaceProps flags deviceMatrix)
  = Some (fst de)
  /\ fMaskFilter (MakeMask font paint surfaceProps flags deviceMatrix)
     = SkScalerContextEffects.fMaskFilter (snd de)
  /\ fPathEffect (MakeMask font paint surfaceProps flags deviceMatrix)
     = SkScalerContextEffects.fPathEffect (snd de).
Proof.
  cbv zeta. unfold MakeMask. rewrite commonSetup_fields. repeat split.
Qed.

(** C7: MakeMask hands the font, the paint, the surface properties, the
    flags and the device matrix to descriptor creation as they were given,
    and the strike-to-source ratio of the result is the default, 1. *)
Theorem MakeMask_inputs_unmodified_ratio_one
        font paint surfaceProps scalerContextFlags deviceMatrix :
  let de := CreateDescriptorAndEffectsUsingPaint
              font paint surfaceProps scalerContextFlags deviceMatrix in
  MakeMask font paint surfaceProps scalerContextFlags deviceMatrix
  = mkStorage (Some (fst de))
              (SkScalerContextEffects.fMaskFilter (snd de))
              (SkScalerContextEffects.fPathEffect (snd de))
              (Some (refTypefaceOrDefault font))
              (SkIntToScalar 1)
  /\ fStrikeToSourceRatio
       (MakeMask font paint surfaceProps scalerContextFlags deviceMatrix)
     = S754_finite false 8388608 (-23).
Proof.
  cbv zeta. unfold MakeMask.
  rewrite commonSetup_fields. cbv zeta. split; reflexivity.
Qed.

(** C6: MakeDefault returns what MakeCanonicalized returns for a
    default-constructed font and an absent paint: the same descriptor, the
    same effects, the same typeface and the same ratio. *)
Theorem MakeDefault_is_MakeCanonicalized_of_default_font :
  let canonical := MakeCanonicalized SkFont_default None in
  fAutoDescriptor MakeDefault = fAutoDescriptor canonical
  /\ fMaskFilter MakeDefault = fMaskFilter canonical
  /\ fPathEffect MakeDefault = fPathEffect canonical
  /\ fTypeface MakeDefault = fTypeface canonical
  /\ fStrikeToSourceRatio MakeDefault = fStrikeToSourceRatio canonical
  /\ MakeDefault = canonical.
Proof.
  cbv zeta. unfold MakeDefault. repeat split.
Qed.

(** C4: MakePDFVector builds its font from a default font with hinting
    disabled, aliased edging and the given typeface, at the size of the
    typeface's units-per-em, or 1024 when getUnitsPerEm() is not positive;
    it writes that number through the size pointer when one is given.  The
    descriptor and the effects it stores are those that descriptor creation
    returns for that font, a default paint, surface properties (0, unknown
    pixel geometry), the fake-gamma-and-boost-contrast flags and the
    identity matrix; the typeface stored is the one given and the ratio is
    1.  It returns for every typeface.  A typeface reporting 0 gets size
    1024, and 1024 is written. *)
Theorem MakePDFVector_units_per_em typeface :
  let unitsPerEm :=
    if getUnitsPerEm typeface <=? 0 then 1024 else getUnitsPerEm typeface in
  let font :=
    mkFont (Some typeface) (SkIntToScalar unitsPerEm)
           (font_scaleX SkFont_default) (font_skewX SkFont_default)
           (font_subpixel SkFont_default) Edging.kAlias SkFontHinting.kNone in
  let de :=
    CreateDescriptorAndEffectsUsingPaint
      font SkPaint_default (mkSurfaceProps 0 kUnknown_SkPixelGeometry)
      SkScalerContextFlags.kFakeGammaAndBoostContrast SkMatrix_I in
  (forall size,
      fst (MakePDFVector typeface size)
      = commonSetup font SkPaint_default
                    (mkSurfaceProps 0 kUnknown_SkPixelGeometry)
                    SkScalerContextFlags.kFakeGammaAndBoostContrast SkMatrix_I
                    SkStrikeSpecStorage_default)
  /\ (forall size,
        fst (MakePDFVector typeface size)
        = mkStorage (Some (fst de))
                    (SkScalerContextEffects.fMaskFilter (snd de))
                    (SkScalerContextEffects.fPathEffect (snd de))
                    (Some typeface)
                    (S754_finite false 8388608 (-23)))
  /\ (forall old, snd (MakePDFVector typeface (Some old)) = Some unitsPerEm)
  /\ snd (MakePDFVector typeface None) = None
  /\ (forall size, fTypeface (fst (MakePDFVector typeface size)) = Some typeface)
  /\ 0 < unitsPerEm
  /\ (forall id old,
        let zero := mkTypeface id 0 in
        snd (MakePDFVector zero (Some old)) = Some 1024
        /\ exists f,
            fst (MakePDFVector zero (Some old))
            = commonSetup f SkPaint_default
                          (mkSurfaceProps 0 kUnknown_SkPixelGeometry)
                          SkScalerContextFlags.kFakeGammaAndBoostContrast SkMatrix_I
                          SkStrikeSpecStorage_default
            /\ fAutoDescriptor (fst (MakePDFVector zero (Some old)))
               = Some (fst (CreateDescriptorAndEffectsUsingPaint
                              f SkPaint_default
                              (mkSurfaceProps 0 kUnknown_SkPixelGeometry)
                              SkScalerContextFlags.kFakeGammaAndBoostContrast
                              SkMatrix_I))
            /\ getSize f = SkIntToScalar 1024
            /\ getSize f = S754_finite false 8388608 (-13)
            /\ getHinting f = SkFontHinting.kNone
            /\ getEdging f = Edging.kAlias).
Proof.
  cbv zeta. unfold MakePDFVector.
  split; [intros size; destruct size; reflexivity |].
  split.
  { intros size. cbn [fst]. rewrite commonSetup_fields. reflexivity. }
  split; [reflexivity |].
  split; [reflexivity |].
  split.
  { intros size. cbn [fst]. rewrite commonSetup_fields. reflexivity. }
  split.
  { destruct (getUnitsPerEm typeface <=? 0) eqn:E; [lia |].
    apply Z.leb_gt in E. exact E. }
  intros id old. cbn [getUnitsPerEm fst snd].
  split; [reflexivity |].
  eexists. split; [reflexivity |].
  split; [rewrite commonSetup_fields; reflexivity |]. repeat split.
Qed.

(** C8: MakeSDFT takes no scaler-context flags from its caller: the
    descriptor and the effects it stores are those that descriptor creation
    returns for the font and the paint of the distance-field policy, the
    surface properties given, the flags kNone and the identity matrix; the
    ratio is the policy's, and the scale range returned with the storage is
    the policy's, computed from the size of the font as given and the device
    matrix. *)
Theorem MakeSDFT_policy_and_flags font paint surfaceProps deviceMatrix options :
  let dfPaint := InitDistanceFieldPaint paint in
  let df := InitDistanceFieldFont font deviceMatrix options in
  let range := InitDistanceFieldMinMaxScale (getSize font) deviceMatrix options in
  let de :=
    CreateDescriptorAndEffectsUsingPaint
      (fst df) dfPaint surfaceProps SkScalerContextFlags.kNone SkMatrix_I in
  MakeSDFT font paint surfaceProps deviceMatrix options
  = (commonSetup (fst df) dfPaint surfaceProps SkScalerContextFlags.kNone
                 SkMatrix_I
                 (set_fStrikeToSourceRatio (snd df) SkStrikeSpecStorage_default),
     fst range, snd range)
  /\ MakeSDFT font paint surfaceProps deviceMatrix options
     = (mkStorage (Some (fst de))
                  (SkScalerContextEffects.fMaskFilter (snd de))
                  (SkScalerContextEffects.fPathEffect (snd de))
                  (Some (refTypefaceOrDefault (fst df)))
                  (snd df),
        fst range, snd range)
  /\ fStrikeToSourceRatio
       (fst (fst (MakeSDFT font paint surfaceProps deviceMatrix options)))
     = snd df
  /\ SkScalerContextFlags.kNone = 0.
Proof.
  cbv zeta. rewrite MakeSDFT_unfold.
  split; [reflexivity |].
  split; [rewrite commonSetup_fields; reflexivity |].
  split; [| reflexivity].
  cbn [fst]. apply commonSetup_ratio.
Qed.

(** C10: MakeSDFT builds its descriptor against the identity matrix.  The
    device matrix reaches the storage only through the distance-field font
    and ratio: two device matrices for which the policy returns the same
    font and ratio give the same storage. *)
Theorem MakeSDFT_descriptor_at_identity font paint surfaceProps options :
  (forall deviceMatrix,
      let df := InitDistanceFieldFont font deviceMatrix options in
      let de := CreateDescriptorAndEffectsUsingPaint
                  (fst df) (InitDistanceFieldPaint paint) surfaceProps
                  SkScalerContextFlags.kNone SkMatrix_I in
      fAutoDescriptor
        (fst (fst (MakeSDFT font paint surfaceProps deviceMatrix options)))
      = Some (fst de))
  /\ (forall m1 m2,
        InitDistanceFieldFont font m1 options
        = InitDistanceFieldFont font m2 options ->
        fst (fst (MakeSDFT font paint surfaceProps m1 options))
        = fst (fst (MakeSDFT font paint surfaceProps m2 options))).
Proof.
  split.
  - intros deviceMatrix. cbv zeta. rewrite MakeSDFT_unfold.
    cbn [fst]. rewrite commonSetup_fields. reflexivity.
  - intros m1 m2 Hdf. rewrite !MakeSDFT_unfold.
    cbn [fst]. rewrite Hdf. reflexivity.
Qed.

Lemma resolve_GrStrike this desc :
  fAutoDescriptor this = Some desc ->
  resolve GrStrike this = Some (this, [Call_getStrike desc]).
Proof.
  intros Hdesc. unfold resolve, findOrCreateGrStrike. rewrite Hdesc. reflexivity.
Qed.

(** C9, as the code has it: for every constructed StrikeSpec and every
    cache, each resolver returns, leaves the StrikeSpec as it was and calls
    the cache once.  findOrCreateExclusiveStrike and findOrCreateScopedStrike
    pass the stored descriptor, the path effect and mask filter that
    commonSetup captured, and the stored typeface; findOrCreateGrStrike
    passes the stored descriptor alone. *)
Theorem resolvers_frame_and_single_call this :
  Constructed this ->
  exists font paint props flags matrix,
    let de := CreateDescriptorAndEffectsUsingPaint font paint props flags matrix in
    let desc := fst de in
    let effects := snd de in
    let typeface := refTypefaceOrDefault font in
    fAutoDescriptor this = Some desc
    /\ SkScalerContextEffects.make (fPathEffect this) (fMaskFilter this) = effects
    /\ fTypeface this = Some typeface
    /\ (forall (C : Type) (I : SkStrikeCache C) (cache : C),
          let reply := cache_findOrCreateStrikeExclusive desc effects typeface cache in
          findOrCreateExclusiveStrike this cache = Some (fst reply, this, snd reply))
    /\ (forall (C : Type) (I : SkStrikeCacheInterface C) (cache : C),
          let reply := cache_findOrCreateScopedStrike desc effects typeface cache in
          findOrCreateScopedStrike this cache = Some (fst reply, this, snd reply))
    /\ (forall (C : Type) (I : GrStrikeCache C) (cache : C),
          let reply := cache_getStrike desc cache in
          findOrCreateGrStrike this cache = Some (fst reply, this, snd reply))
    /\ resolve ExclusiveStrike this
       = Some (this, [Call_findOrCreateStrikeExclusive desc effects typeface])
    /\ resolve ScopedStrike this
       = Some (this, [Call_findOrCreateScopedStrike desc effects typeface])
    /\ resolve GrStrike this = Some (this, [Call_getStrike desc])
    /\ passes_descriptor_effects_typeface ExclusiveStrike this
    /\ passes_descriptor_effects_typeface ScopedStrike this.
Proof.
  intros Hc.
  destruct (Constructed_commonSetup this Hc)
    as (font & paint & props & flags & matrix & ratio & ->).
  exists font, paint, props, flags, matrix. cbv zeta.
  rewrite commonSetup_fields. cbv zeta.
  destruct (CreateDescriptorAndEffectsUsingPaint font paint props flags matrix)
    as [desc [pathEffect maskFilter]].
  cbn [fst snd fAutoDescriptor fMaskFilter fPathEffect fTypeface
       SkScalerContextEffects.fMaskFilter SkScalerContextEffects.fPathEffect].
  split; [reflexivity |]. split; [reflexivity |]. split; [reflexivity |].
  split.
  { intros C I cache. unfold findOrCreateExclusiveStrike.
    cbn [fAutoDescriptor fMaskFilter fPathEffect fTypeface].
    destruct (cache_findOrCreateStrikeExclusive _ _ _ cache). reflexivity. }
  split.
  { intros C I cache. unfold findOrCreateScopedStrike.
    cbn [fAutoDescriptor fMaskFilter fPathEffect fTypeface].
    destruct (cache_findOrCreateScopedStrike _ _ _ cache). reflexivity. }
  split.
  { intros C I cache. unfold findOrCreateGrStrike.
    cbn [fAutoDescriptor].
    destruct (cache_getStrike _ cache). reflexivity. }
  split; [reflexivity |]. split; [reflexivity |]. split; [reflexivity |].
  split; eexists; (split; [reflexivity |]); repeat split.
Qed.

End FactoryFacts.

(** ** The numeric behaviour of the factories *)

(** C1: MakeSourceFallback computes the fallback text size
    floor(maxAtlasDimension / maxSourceGlyphDimension * S), where S is the
    size of the font and maxAtlasDimension is kSkSideTooBigForAtlas - 2,
    sets the size of the fallback font to it and sets the ratio to S divided
    by it.  With maxAtlasDimension 4094, S = 100 and
    maxSourceGlyphDimension = 500 the size is 818 and the ratio is
    100/818. *)
Theorem MakeSourceFallback_size_and_ratio
        (X : Collaborators) font paint surfaceProps flags maxSourceGlyphDimension :
  let maxAtlasDimension := SkIntToScalar (kSkSideTooBigForAtlas - 2) in
  let S := getSize font in
  let fallbackTextSize :=
    SkScalarFloorToScalar
      (sk_mul (sk_div maxAtlasDimension maxSourceGlyphDimension) S) in
  let fallbackFont := setSubpixel false (setSize fallbackTextSize font) in
  let storage :=
    MakeSourceFallback font paint surfaceProps flags maxSourceGlyphDimension in
  storage
  = commonSetup fallbackFont paint surfaceProps flags SkMatrix_I
                (set_fStrikeToSourceRatio (sk_div S fallbackTextSize)
                                          SkStrikeSpecStorage_default)
  /\ fStrikeToSourceRatio storage = sk_div S fallbackTextSize
  /\ (kSkSideTooBigForAtlas - 2 = 4094 ->
      S = SkIntToScalar 100 ->
      maxSourceGlyphDimension = SkIntToScalar 500 ->
      fallbackTextSize = SkIntToScalar 818
      /\ fStrikeToSourceRatio storage
         = sk_div (SkIntToScalar 100) (SkIntToScalar 818)).
Proof.
  cbv zeta. unfold MakeSourceFallback.
  split; [reflexivity |].
  split; [apply commonSetup_ratio |].
  intros Hside HS Hd. rewrite commonSetup_ratio.
  cbn [set_fStrikeToSourceRatio fStrikeToSourceRatio].
  rewrite Hside, HS, Hd.
  split; vm_compute; reflexivity.
Qed.

Lemma MakeSourceFallback_size_and_ratio_witness :
  let X := Reference 4096 in
  let storage :=
    MakeSourceFallback (sampleFont 100) samplePaint sampleProps
                       SkScalerContextFlags.kNone (SkIntToScalar 500) in
  option_map (fun desc : DescriptorInputs => getSize (desc_font desc))
             (fAutoDescriptor storage)
  = Some (S754_finite false 13402112 (-14))
  /\ fStrikeToSourceRatio storage = sk_div (SkIntToScalar 100) (SkIntToScalar 818).
Proof.
  cbv zeta.
  destruct (MakeSourceFallback_size_and_ratio
              (Reference 4096) (sampleFont 100) samplePaint sampleProps
              SkScalerContextFlags.kNone (SkIntToScalar 500))
    as (Hstorage & _ & Hnum).
  destruct Hnum as [Hsize Hratio]; [reflexivity | reflexivity | reflexivity |].
  split; [| exact Hratio].
  rewrite Hstorage. cbv zeta in Hsize. rewrite Hsize. reflexivity.
Defined.

(** C2, against the claim: with positive inputs, a font of size 1 and a
    largest glyph dimension of 5000, the fallback size is floor(0.8188) = 0,
    which is not strictly positive, and the ratio is 1/0, an infinity. *)
Lemma MakeSourceFallback_size_not_clamped :
  let X := Reference 4096 in
  let font := sampleFont 1 in
  let maxSourceGlyphDimension := SkIntToScalar 5000 in
  let storage :=
    MakeSourceFallback font samplePaint sampleProps
                       SkScalerContextFlags.kNone maxSourceGlyphDimension in
  sk_lt SK_Scalar0 maxSourceGlyphDimension = true
  /\ sk_lt SK_Scalar0 (getSize font) = true
  /\ option_map (fun desc : DescriptorInputs => getSize (desc_font desc))
                (fAutoDescriptor storage)
     = Some (S754_zero false)
  /\ sk_lt SK_Scalar0 (S754_zero false) = false
  /\ fStrikeToSourceRatio storage = S754_infinity false.
Proof.
  vm_compute. repeat split.
Qed.

(** C2, as the code has it: the fallback size is the floor of the product
    (maxAtlasDimension / maxSourceGlyphDimension) * S and nothing clamps it.
    For well-formed inputs it is strictly positive exactly when the product
    is at least 1; when the product is in [0, 1) it is a zero, and the ratio
    of a finite non-zero S to it is an infinity. *)
Theorem MakeSourceFallback_size_positive_iff
        (X : Collaborators) font paint surfaceProps flags maxSourceGlyphDimension :
  let maxAtlasDimension := SkIntToScalar (kSkSideTooBigForAtlas - 2) in
  let S := getSize font in
  let product := sk_mul (sk_div maxAtlasDimension maxSourceGlyphDimension) S in
  let fallbackTextSize := SkScalarFloorToScalar product in
  let storage :=
    MakeSourceFallback font paint surfaceProps flags maxSourceGlyphDimension in
  well_formed S = true ->
  well_formed maxSourceGlyphDimension = true ->
  fStrikeToSourceRatio storage = sk_div S fallbackTextSize
  /\ (sk_lt SK_Scalar0 fallbackTextSize = true <-> sk_le SK_Scalar1 product = true)
  /\ (sk_le SK_Scalar0 product = true -> sk_lt product SK_Scalar1 = true ->
      exists zs,
        fallbackTextSize = S754_zero zs
        /\ forall s m e,
            S = S754_finite s m e ->
            fStrikeToSourceRatio storage = S754_infinity (xorb s zs)).
Proof.
  cbv zeta. intros HS Hd.
  assert (Hp : well_formed
                 (sk_mul (sk_div (SkIntToScalar (kSkSideTooBigForAtlas - 2))
                                 maxSourceGlyphDimension) (getSize font)) = true).
  { apply sk_mul_well_formed; [| exact HS].
    apply sk_div_well_formed; [apply SkIntToScalar_well_formed | exact Hd]. }
  assert (Hratio : fStrikeToSourceRatio
                     (MakeSourceFallback font paint surfaceProps flags
                                         maxSourceGlyphDimension)
                   = sk_div (getSize font)
                            (SkScalarFloorToScalar
                               (sk_mul (sk_div (SkIntToScalar (kSkSideTooBigForAtlas - 2))
                                               maxSourceGlyphDimension) (getSize font)))).
  { unfold MakeSourceFallback. apply commonSetup_ratio. }
  split; [exact Hratio |].
  split; [apply sk_float_floor_positive_iff; exact Hp |].
  intros H0 H1.
  destruct (sk_float_floor_below_one _ Hp H0 H1) as [zs Hz].
  exists zs. split; [exact Hz |].
  intros s m e HSe. rewrite Hratio. unfold SkScalarFloorToScalar.
  rewrite Hz, HSe. reflexivity.
Qed.

Lemma MakeSourceFallback_size_positive_iff_witness :
  let X := Reference 4096 in
  let storage :=
    MakeSourceFallback (sampleFont 1) samplePaint sampleProps
                       SkScalerContextFlags.kNone (SkIntToScalar 5000) in
  well_formed (getSize (sampleFont 1)) = true
  /\ well_formed (SkIntToScalar 5000) = true
  /\ fStrikeToSourceRatio storage = S754_infinity false.
Proof.
  cbv zeta. split; [reflexivity |]. split; [reflexivity |].
  destruct (MakeSourceFallback_size_positive_iff
              (Reference 4096) (sampleFont 1) samplePaint sampleProps
              SkScalerContextFlags.kNone (SkIntToScalar 5000))
    as (_ & _ & Hzero); [reflexivity | reflexivity |].
  destruct Hzero as (zs & Hz & Hinf); [reflexivity | reflexivity |].
  assert (Hzs : zs = false) by (vm_compute in Hz; congruence).
  rewrite (Hinf false 8388608%positive (-23) eq_refl), Hzs. reflexivity.
Defined.

(** ** Running the factories and the resolvers *)

Lemma MakeSDFT_descriptor_at_identity_witness :
  let X := Reference 4096 in
  InitDistanceFieldFont (sampleFont 12) (scaleMatrix 1) tt
  = InitDistanceFieldFont (sampleFont 12) (scaleMatrix 2) tt
  /\ fst (fst (MakeSDFT (sampleFont 12) samplePaint sampleProps (scaleMatrix 1) tt))
     = fst (fst (MakeSDFT (sampleFont 12) samplePaint sampleProps (scaleMatrix 2) tt))
  /\ snd (MakeSDFT (sampleFont 12) samplePaint sampleProps (scaleMatrix 1) tt)
     <> snd (MakeSDFT (sampleFont 12) samplePaint sampleProps (scaleMatrix 2) tt).
Proof.
  cbv zeta. split; [reflexivity |]. split.
  - apply (MakeSDFT_descriptor_at_identity (X := Reference 4096)). reflexivity.
  - vm_compute. discriminate.
Defined.

(** C9, against the claim: findOrCreateGrStrike calls getStrike with the
    descriptor alone; neither the effects nor the typeface are passed. *)
Lemma findOrCreateGrStrike_passes_descriptor_only :
  let X := Reference 4096 in
  let this :=
    MakeMask (sampleFont 12) samplePaint sampleProps
             SkScalerContextFlags.kNone SkMatrix_I in
  Constructed this
  /\ fMaskFilter this = Some (MaskFilterRef 3)
  /\ fPathEffect this = Some (PathEffectRef 5)
  /\ ~ passes_descriptor_effects_typeface GrStrike this.
Proof.
  cbv zeta. split; [constructor |]. split; [reflexivity |]. split; [reflexivity |].
  intros (c & Hres & _ & Heffects & _).
  rewrite (resolve_GrStrike
             _ _ (proj1 (MakeMask_fields (X := Reference 4096)
                           (sampleFont 12) samplePaint sampleProps
                           SkScalerContextFlags.kNone SkMatrix_I))) in Hres.
  injection Hres as Hc. subst c.
  discriminate Heffects.
Qed.

Lemma resolvers_frame_and_single_call_witness :
  let X := Reference 4096 in
  let this :=
    MakeMask (sampleFont 12) samplePaint sampleProps
             SkScalerContextFlags.kNone SkMatrix_I in
  Constructed this
  /\ passes_descriptor_effects_typeface ExclusiveStrike this
  /\ passes_descriptor_effects_typeface ScopedStrike this.
Proof.
  cbv zeta. split; [constructor |].
  destruct (resolvers_frame_and_single_call (X := Reference 4096)
              (MakeMask (X := Reference 4096) (sampleFont 12) samplePaint sampleProps
                        SkScalerContextFlags.kNone SkMatrix_I))
    as (font & paint & props & flags & matrix & H); [constructor |].
  cbv zeta in H.
  destruct H as (_ & _ & _ & _ & _ & _ & _ & _ & _ & Hexcl & Hscoped).
  split; [exact Hexcl | exact Hscoped].
Defined.

(** ** Further facts about binary32 arithmetic *)

(** Rounding a non-negative mantissa never gives NaN: the result has the
    sign it was given. *)
Lemma binary_round_aux_has_sign sx mx ex lx :
  0 <= mx -> has_sign sx (binary_round_aux prec emax sx mx ex lx).
Proof.
  intros Hmx. unfold binary_round_aux.
  pose proof (shr_fexp_spec mx ex lx Hmx) as H1. cbv zeta in H1.
  destruct (shr_fexp prec emax mx ex lx) as [mrs1 e1]. cbn [fst snd] in H1.
  destruct H1 as [Hm1 _].
  assert (Hm1nn : 0 <= shr_m mrs1).
  { rewrite Hm1. apply Z.shiftr_nonneg. exact Hmx. }
  pose proof (round_nearest_even_bounds (shr_m mrs1) (loc_of_shr_record mrs1) Hm1nn)
    as Hround.
  set (m2 := round_nearest_even (shr_m mrs1) (loc_of_shr_record mrs1)) in *.
  assert (Hm2 : 0 <= m2) by lia.
  pose proof (shr_fexp_spec m2 e1 loc_Exact Hm2) as H2. cbv zeta in H2.
  destruct (shr_fexp prec emax m2 e1 loc_Exact) as [mrs2 e2]. cbn [fst snd] in H2.
  destruct H2 as [Hm3 _].
  assert (Hm3nn : 0 <= shr_m mrs2).
  { rewrite Hm3. apply Z.shiftr_nonneg. exact Hm2. }
  destruct (shr_m mrs2) as [| m3 | m3]; [reflexivity | | lia].
  destruct (e2 <=? emax - prec); reflexivity.
Qed.

Lemma binary_round_has_sign s m e : has_sign s (binary_round prec emax s m e).
Proof.
  unfold binary_round. destruct (shl_align m e _) as [mz ez].
  apply binary_round_aux_has_sign. lia.
Qed.

Lemma SkIntToScalar_positive_sign n : 0 < n -> has_sign false (SkIntToScalar n).
Proof.
  intros Hn. destruct n as [| p | p]; try lia.
  apply binary_round_has_sign.
Qed.

(** Conversion of a positive integer below 2^24 is exact: the mantissa is
    the integer shifted left and the exponent undoes the shift. *)
Lemma binary_round_small s q :
  Z.log2 (Z.pos q) < 24 ->
  exists m e,
    binary_round prec emax s q 0 = S754_finite s m e
    /\ e = Z.log2 (Z.pos q) - 23
    /\ Z.pos m = Z.pos q * 2 ^ (- e)
    /\ bounded prec emax m e = true.
Proof.
  intros Hq. unfold binary_round, shl_align.
  rewrite fexp_eq, digits2_pos_log2.
  pose proof (Z.log2_nonneg (Z.pos q)) as Hnn.
  destruct (Z.max (Z.log2 (Z.pos q) + 1 + 0 - 24) (-149) - 0) as [| d | d] eqn:E.
  - assert (Hb : bounded prec emax q 0 = true) by (apply bounded_iff; lia).
    exists q, 0. rewrite (binary_round_aux_canonical s q 0 Hb).
    split; [reflexivity |]. split; [lia |]. split; [cbn; lia | exact Hb].
  - lia.
  - assert (Hez : Z.max (Z.log2 (Z.pos q) + 1 + 0 - 24) (-149) = Z.neg d) by lia.
    rewrite Hez.
    assert (Hmz : Z.pos (Pos.iter xO q d) = Z.pos q * 2 ^ Z.pos d).
    { rewrite iter_xO_shiftl. apply Z.shiftl_mul_pow2. lia. }
    assert (Hb : bounded prec emax (Pos.iter xO q d) (Z.neg d) = true).
    { apply bounded_iff. rewrite iter_xO_shiftl, Z.log2_shiftl by lia. lia. }
    exists (Pos.iter xO q d), (Z.neg d).
    rewrite (binary_round_aux_canonical s _ _ Hb).
    split; [reflexivity |]. split; [lia |]. split; [exact Hmz | exact Hb].
Qed.

Lemma SkIntToScalar_small n :
  0 < n < 2 ^ 24 ->
  exists m e,
    SkIntToScalar n = S754_finite false m e
    /\ e <= 0
    /\ Z.pos m = n * 2 ^ (- e)
    /\ bounded prec emax m e = true.
Proof.
  intros [Hlo Hhi]. destruct n as [| q | q]; try lia.
  assert (Hq : Z.log2 (Z.pos q) < 24) by (apply Z.log2_lt_pow2; lia).
  destruct (binary_round_small false q Hq) as (m & e & Hr & He & Hm & Hb).
  exists m, e. split; [exact Hr |]. split; [lia |]. split; [exact Hm | exact Hb].
Qed.

(** The floor of an integer is the integer. *)
Lemma sk_float_floor_round s q :
  Z.log2 (Z.pos q) < 24 ->
  sk_float_floor (binary_round prec emax s q 0) = binary_round prec emax s q 0.
Proof.
  intros Hq.
  destruct (binary_round_small s q Hq) as (m & e & Hr & He & Hm & Hb).
  pose proof (Z.log2_nonneg (Z.pos q)) as Hnn.
  rewrite Hr. unfold sk_float_floor.
  destruct (0 <=? e) eqn:E0; [reflexivity |].
  apply Z.leb_gt in E0. cbv zeta.
  assert (Hpow : 0 < 2 ^ (- e)) by (apply Z.pow_pos_nonneg; lia).
  assert (Hshr : Z.shiftr (Z.pos m) (- e) = Z.pos q).
  { rewrite Z.shiftr_div_pow2 by lia. rewrite Hm. apply Z.div_mul. lia. }
  rewrite Hshr.
  assert (Hshl : Z.shiftl (Z.pos q) (- e) = Z.pos m).
  { rewrite Z.shiftl_mul_pow2 by lia. symmetry. exact Hm. }
  rewrite Hshl, Z.eqb_refl. cbn [negb]. rewrite andb_false_r.
  rewrite <- Hr. destruct s; reflexivity.
Qed.

(** What a floor can be: the value itself, a zero, or an integer below
    2^24 in magnitude. *)
Lemma sk_float_floor_cases x :
  well_formed x = true ->
  sk_float_floor x = x
  \/ (exists s, sk_float_floor x = S754_zero s)
  \/ (exists s q, Z.log2 (Z.pos q) < 24
                  /\ sk_float_floor x = binary_round prec emax s q 0).
Proof.
  destruct x as [s | s | | s m e]; try (intros _; left; reflexivity).
  cbn [well_formed valid_binary]. intros Hb.
  apply bounded_iff in Hb. destruct Hb as [Hc He].
  pose proof (Z.log2_nonneg (Z.pos m)) as Hnn.
  unfold sk_float_floor.
  destruct (0 <=? e) eqn:E0; [left; reflexivity |].
  apply Z.leb_gt in E0. right. cbv zeta.
  assert (Hq : 0 <= Z.shiftr (Z.pos m) (- e) < 2 ^ 23).
  { split; [apply Z.shiftr_nonneg; lia |].
    rewrite Z.shiftr_div_pow2 by lia.
    assert (Hm : Z.pos m < 2 ^ 24) by (apply Z.log2_lt_pow2; lia).
    assert (Hp : 2 ^ 1 <= 2 ^ (- e)) by (apply Z.pow_le_mono_r; lia).
    change (2 ^ 1) with 2 in Hp. change (2 ^ 24) with 16777216 in Hm.
    change (2 ^ 23) with 8388608.
    apply Z.div_lt_upper_bound; lia. }
  set (q := Z.shiftr (Z.pos m) (- e)) in *.
  set (n := if s && negb (Z.shiftl q (- e) =? Z.pos m) then q + 1 else q).
  assert (Hn : 0 <= n <= 2 ^ 23) by (subst n; destruct (s && _); lia).
  destruct n as [| n' | n'] eqn:En; [left; exists s; reflexivity | | lia].
  right. exists s, n'. split.
  - apply Z.log2_lt_pow2; [lia |]. change (2 ^ 24) with 16777216.
    change (2 ^ 23) with 8388608 in Hn. lia.
  - destruct s; reflexivity.
Qed.

Lemma sk_float_floor_idempotent x :
  well_formed x = true -> sk_float_floor (sk_float_floor x) = sk_float_floor x.
Proof.
  intros Hwf.
  destruct (sk_float_floor_cases x Hwf) as [H | [[s H] | (s & q & Hq & H)]].
  - rewrite H. exact H.
  - rewrite H. reflexivity.
  - rewrite H. apply sk_float_floor_round. exact Hq.
Qed.

Lemma sk_le_one_round q :
  Z.log2 (Z.pos q) < 24 ->
  sk_le SK_Scalar1 (binary_round prec emax false q 0) = true.
Proof.
  intros Hq.
  destruct (binary_round_small false q Hq) as (m & e & Hr & He & Hm & Hb).
  pose proof (Z.log2_nonneg (Z.pos q)) as Hnn.
  rewrite Hr. apply (sk_le_one_finite m e Hb).
  rewrite Hm, Z.log2_mul_pow2 by lia. lia.
Qed.

(** The floor of a well-formed value that is at least 1 is at least 1. *)
Lemma sk_float_floor_at_least_one p :
  well_formed p = true ->
  sk_le SK_Scalar1 p = true -> sk_le SK_Scalar1 (sk_float_floor p) = true.
Proof.
  destruct p as [s | s | | s m e]; try (intros _ H; exact H).
  cbn [well_formed valid_binary]. intros Hb Hle.
  destruct s; [discriminate Hle |].
  pose proof Hle as Hlog. apply (sk_le_one_finite m e Hb) in Hlog.
  unfold sk_float_floor.
  destruct (0 <=? e) eqn:E0; [exact Hle |].
  apply Z.leb_gt in E0. cbv zeta. cbn [andb].
  pose proof (shiftr_mantissa_zero_iff m e E0) as Hz.
  apply bounded_iff in Hb. destruct Hb as [Hc He].
  destruct (Z.shiftr (Z.pos m) (- e)) as [| q | q] eqn:Eq.
  - exfalso. assert (Z.log2 (Z.pos m) < - e) by (apply Hz; reflexivity). lia.
  - cbn [binary_normalize]. apply sk_le_one_round.
    rewrite <- Eq, Z.log2_shiftr by lia. lia.
  - assert (0 <= Z.shiftr (Z.pos m) (- e)) by (apply Z.shiftr_nonneg; lia). lia.
Qed.

(** A value divided by itself is 1, and 1 times a value is the value. *)
Lemma sk_div_self s m e :
  sk_div (S754_finite s m e) (S754_finite s m e) = SK_Scalar1.
Proof.
  unfold sk_div. cbn [SFdiv]. unfold SFdiv_core_binary.
  replace (Zdigits2 (Z.pos m) + e - (Zdigits2 (Z.pos m) + e)) with 0 by lia.
  replace (e - e) with 0 by lia.
  change (Z.min (fexp prec emax 0) 0) with (-24).
  change (0 - -24) with 24. cbv iota.
  assert (Hdiv : Z.div_eucl (Z.shiftl (Z.pos m) 24) (Z.pos m) = (16777216, 0)).
  { rewrite Z.shiftl_mul_pow2 by lia. change (2 ^ 24) with 16777216.
    pose proof (Z_div_mod (Z.pos m * 16777216) (Z.pos m) ltac:(lia)) as Hdm.
    destruct (Z.div_eucl (Z.pos m * 16777216) (Z.pos m)) as [q r].
    assert (q = 16777216) by nia. assert (r = 0) by nia. subst. reflexivity. }
  rewrite Hdiv.
  assert (Hloc : new_location (Z.pos m) 0 = loc_Exact).
  { unfold new_location. destruct (Z.even (Z.pos m)); reflexivity. }
  rewrite Hloc. destruct s; reflexivity.
Qed.

Lemma sk_mul_one_l x : well_formed x = true -> sk_mul SK_Scalar1 x = x.
Proof.
  destruct x as [s | s | | s m e]; try (intros _; reflexivity).
  cbn [well_formed valid_binary]. intros Hb.
  change SK_Scalar1 with (S754_finite false 8388608 (-23)).
  unfold sk_mul. cbn [SFmul xorb].
  change (8388608 * m)%positive with (Pos.iter xO m 23).
  rewrite binary_round_aux_shifted.
  - f_equal. lia.
  - replace (-23 + e + 23) with e by lia. exact Hb.
Qed.

(** A value that is NaN, a zero, or not negative does not compare below
    zero. *)
Lemma has_sign_not_below_zero x :
  has_sign false x -> sk_lt x SK_Scalar0 = false.
Proof.
  destruct x as [s | s | | s m e]; cbn [has_sign]; intros H; try subst s;
    try reflexivity; contradiction.
Qed.

Lemma has_sign_not_negative x : has_sign false x -> not_negative x.
Proof.
  destruct x as [s | s | | s m e]; cbn [has_sign not_negative]; intros H;
    try subst s; try exact I; contradiction.
Qed.

Lemma not_negative_not_below_zero x : not_negative x -> sk_lt x SK_Scalar0 = false.
Proof.
  destruct x as [s | s | | s m e]; cbn [not_negative];
    try destruct s; intros H; try reflexivity; contradiction.
Qed.

Lemma positive_cases d :
  sk_lt SK_Scalar0 d = true ->
  d = S754_infinity false \/ exists m e, d = S754_finite false m e.
Proof.
  destruct d as [s | s | | s m e]; try destruct s; try discriminate; intros _.
  - left. reflexivity.
  - right. exists m, e. reflexivity.
Qed.

Lemma sk_div_not_negative a d :
  has_sign false a -> sk_lt SK_Scalar0 d = true -> not_negative (sk_div a d).
Proof.
  intros Ha Hd. destruct (positive_cases d Hd) as [-> | (md & ed & ->)];
    destruct a as [s | s | | s m e]; cbn [has_sign] in Ha; try contradiction;
    subst s; try exact I.
  unfold sk_div. cbn [SFdiv xorb].
  pose proof (Z_div_mod
                match e - ed - Z.min (fexp prec emax (Zdigits2 (Z.pos m) + e
                                                     - (Zdigits2 (Z.pos md) + ed)))
                                     (e - ed) with
                | 0 => Z.pos m
                | Z.pos _ =>
                    Z.shiftl (Z.pos m)
                             (e - ed - Z.min (fexp prec emax (Zdigits2 (Z.pos m) + e
                                                              - (Zdigits2 (Z.pos md) + ed)))
                                             (e - ed))
                | Z.neg _ => 0
                end (Z.pos md) ltac:(lia)) as Hdm.
  unfold SFdiv_core_binary.
  destruct (Z.div_eucl _ (Z.pos md)) as [q r] eqn:Edm.
  apply has_sign_not_negative, binary_round_aux_has_sign.
  assert (Hnum : 0 <= match e - ed - Z.min (fexp prec emax (Zdigits2 (Z.pos m) + e
                                                            - (Zdigits2 (Z.pos md) + ed)))
                                            (e - ed) with
                      | 0 => Z.pos m
                      | Z.pos _ =>
                          Z.shiftl (Z.pos m)
                                   (e - ed - Z.min (fexp prec emax (Zdigits2 (Z.pos m) + e
                                                                    - (Zdigits2 (Z.pos md) + ed)))
                                                   (e - ed))
                      | Z.neg _ => 0
                      end).
  { destruct (e - ed - _); [lia | apply Z.shiftl_nonneg; lia | lia]. }
  destruct Hdm as [Heq Hr]. nia.
Qed.

Lemma sk_mul_not_negative x S :
  not_negative x -> sk_le SK_Scalar0 S = true -> not_negative (sk_mul x S).
Proof.
  intros Hx HS.
  destruct S as [s | s | | s m e]; try destruct s; try discriminate HS;
    destruct x as [sx | sx | | sx mx ex]; try destruct sx;
    cbn [not_negative] in Hx; try contradiction; try exact I.
  unfold sk_mul. cbn [SFmul xorb].
  apply has_sign_not_negative, binary_round_aux_has_sign. lia.
Qed.

Lemma sk_float_floor_not_negative x :
  not_negative x -> not_negative (sk_float_floor x).
Proof.
  destruct x as [s | s | | s m e]; try (intros H; exact H).
  destruct s; cbn [not_negative]; [contradiction | intros _].
  unfold sk_float_floor.
  destruct (0 <=? e) eqn:E0; [exact I |].
  apply Z.leb_gt in E0. cbv zeta. cbn [andb].
  assert (Hq : 0 <= Z.shiftr (Z.pos m) (- e)) by (apply Z.shiftr_nonneg; lia).
  destruct (Z.shiftr (Z.pos m) (- e)) as [| q | q]; [exact I | | lia].
  cbn [binary_normalize]. apply has_sign_not_negative, binary_round_has_sign.
Qed.







(** ** Further properties of the factories and the resolvers *)

(** X1: for a font of size zero (of either sign), the ratio that
    MakeSourceFallback stores is NaN, whatever the glyph dimension and the
    atlas limit: the fallback size is a zero or NaN, and zero divided by it
    is NaN. *)
Theorem MakeSourceFallback_zero_size_ratio_nan
        (X : Collaborators) font paint surfaceProps flags maxSourceGlyphDimension s :
  getSize font = S754_zero s ->
  fStrikeToSourceRatio
    (MakeSourceFallback font paint surfaceProps flags maxSourceGlyphDimension)
  = S754_nan.
Proof.
  intros HS. unfold MakeSourceFallback. rewrite commonSetup_ratio.
  cbn [set_fStrikeToSourceRatio fStrikeToSourceRatio]. rewrite HS.
  destruct (sk_div (SkIntToScalar (kSkSideTooBigForAtlas - 2)) maxSourceGlyphDimension)
    as [sx | sx | | sx mx ex]; reflexivity.
Qed.

Lemma MakeSourceFallback_zero_size_ratio_nan_witness :
  let X := Reference 4096 in
  getSize (sampleFont 0) = S754_zero false
  /\ fStrikeToSourceRatio
       (MakeSourceFallback (sampleFont 0) samplePaint sampleProps
                           SkScalerContextFlags.kNone (SkIntToScalar 500))
     = S754_nan.
Proof.
  cbv zeta. split; [reflexivity |].
  apply (MakeSourceFallback_zero_size_ratio_nan (Reference 4096)) with (s := false).
  reflexivity.
Defined.

(** X2: for a largest glyph dimension of zero and a font of finite non-zero
    size, MakeSourceFallback does not fail: with a positive atlas limit
    below 2^24 the fallback font gets an infinite size (of the sign of
    size times dimension) and the stored ratio is a zero. *)
Theorem MakeSourceFallback_zero_dimension
        (X : Collaborators) font paint surfaceProps flags sd s m e :
  0 < kSkSideTooBigForAtlas - 2 < 16777216 ->
  getSize font = S754_finite s m e ->
  MakeSourceFallback font paint surfaceProps flags (S754_zero sd)
  = commonSetup (setSubpixel false (setSize (S754_infinity (xorb sd s)) font))
                paint surfaceProps flags SkMatrix_I
                (set_fStrikeToSourceRatio (S754_zero sd) SkStrikeSpecStorage_default).
Proof.
  intros Hside HS.
  destruct (SkIntToScalar_small (kSkSideTooBigForAtlas - 2) Hside)
    as (mA & eA & HA & _).
  unfold MakeSourceFallback. rewrite HA, HS.
  unfold SkScalarFloorToScalar, sk_div, sk_mul.
  cbn [SFdiv SFmul xorb sk_float_floor].
  destruct s, sd; reflexivity.
Qed.

Lemma MakeSourceFallback_zero_dimension_witness :
  let X := Reference 4096 in
  0 < kSkSideTooBigForAtlas - 2 < 16777216
  /\ fStrikeToSourceRatio
       (MakeSourceFallback (sampleFont 12) samplePaint sampleProps
                           SkScalerContextFlags.kNone (S754_zero false))
     = S754_zero false.
Proof.
  cbv zeta. split; [split; reflexivity |].
  rewrite (MakeSourceFallback_zero_dimension
             (Reference 4096) (sampleFont 12) samplePaint sampleProps
             SkScalerContextFlags.kNone false false 12582912 (-20)).
  - apply (commonSetup_ratio (X := Reference 4096)).
  - split; reflexivity.
  - reflexivity.
Defined.

(** X3: with a positive atlas limit, a positive largest glyph dimension and
    a font size that is not negative, the fallback size that
    MakeSourceFallback gives the font is never below zero. *)
Theorem MakeSourceFallback_size_never_negative
        (X : Collaborators) font paint surfaceProps flags maxSourceGlyphDimension :
  let fallbackTextSize :=
    SkScalarFloorToScalar
      (sk_mul (sk_div (SkIntToScalar (kSkSideTooBigForAtlas - 2))
                      maxSourceGlyphDimension)
              (getSize font)) in
  0 < kSkSideTooBigForAtlas - 2 ->
  sk_lt SK_Scalar0 maxSourceGlyphDimension = true ->
  sk_le SK_Scalar0 (getSize font) = true ->
  MakeSourceFallback font paint surfaceProps flags maxSourceGlyphDimension
  = commonSetup (setSubpixel false (setSize fallbackTextSize font))
                paint surfaceProps flags SkMatrix_I
                (set_fStrikeToSourceRatio (sk_div (getSize font) fallbackTextSize)
                                          SkStrikeSpecStorage_default)
  /\ sk_lt fallbackTextSize SK_Scalar0 = false.
Proof.
  cbv zeta. intros Hside Hd HS. split; [reflexivity |].
  apply not_negative_not_below_zero, sk_float_floor_not_negative.
  apply sk_mul_not_negative; [| exact HS].
  apply sk_div_not_negative; [| exact Hd].
  apply SkIntToScalar_positive_sign. exact Hside.
Qed.

Lemma MakeSourceFallback_size_never_negative_witness :
  let X := Reference 4096 in
  0 < kSkSideTooBigForAtlas - 2
  /\ sk_lt SK_Scalar0 (SkIntToScalar 5000) = true
  /\ sk_le SK_Scalar0 (getSize (sampleFont 1)) = true
  /\ sk_lt (SkScalarFloorToScalar
              (sk_mul (sk_div (SkIntToScalar (kSkSideTooBigForAtlas - 2))
                              (SkIntToScalar 5000))
                      (getSize (sampleFont 1))))
           SK_Scalar0 = false.
Proof.
  cbv zeta. split; [reflexivity |]. split; [reflexivity |]. split; [reflexivity |].
  apply (MakeSourceFallback_size_never_negative
           (Reference 4096) (sampleFont 1) samplePaint sampleProps
           SkScalerContextFlags.kNone (SkIntToScalar 5000)); reflexivity.
Defined.

(** X4: for well-formed inputs the fallback size of MakeSourceFallback is a
    whole number: flooring it again gives the same value; and when it is
    strictly positive it is at least 1. *)
Theorem MakeSourceFallback_size_integral
        (X : Collaborators) font paint surfaceProps flags maxSourceGlyphDimension :
  let fallbackTextSize :=
    SkScalarFloorToScalar
      (sk_mul (sk_div (SkIntToScalar (kSkSideTooBigForAtlas - 2))
                      maxSourceGlyphDimension)
              (getSize font)) in
  well_formed (getSize font) = true ->
  well_formed maxSourceGlyphDimension = true ->
  MakeSourceFallback font paint surfaceProps flags maxSourceGlyphDimension
  = commonSetup (setSubpixel false (setSize fallbackTextSize font))
                paint surfaceProps flags SkMatrix_I
                (set_fStrikeToSourceRatio (sk_div (getSize font) fallbackTextSize)
                                          SkStrikeSpecStorage_default)
  /\ SkScalarFloorToScalar fallbackTextSize = fallbackTextSize
  /\ (sk_lt SK_Scalar0 fallbackTextSize = true ->
      sk_le SK_Scalar1 fallbackTextSize = true).
Proof.
  cbv zeta. intros HS Hd.
  assert (Hp : well_formed
                 (sk_mul (sk_div (SkIntToScalar (kSkSideTooBigForAtlas - 2))
                                 maxSourceGlyphDimension) (getSize font)) = true).
  { apply sk_mul_well_formed; [| exact HS].
    apply sk_div_well_formed; [apply SkIntToScalar_well_formed | exact Hd]. }
  split; [reflexivity |]. unfold SkScalarFloorToScalar.
  split; [apply sk_float_floor_idempotent; exact Hp |].
  intros Hpos. apply sk_float_floor_at_least_one; [exact Hp |].
  apply sk_float_floor_positive_iff; [exact Hp | exact Hpos].
Qed.

Lemma MakeSourceFallback_size_integral_witness :
  let X := Reference 4096 in
  let fallbackTextSize :=
    SkScalarFloorToScalar
      (sk_mul (sk_div (SkIntToScalar (kSkSideTooBigForAtlas - 2))
                      (SkIntToScalar 500))
              (getSize (sampleFont 100))) in
  well_formed (getSize (sampleFont 100)) = true
  /\ well_formed (SkIntToScalar 500) = true
  /\ SkScalarFloorToScalar fallbackTextSize = fallbackTextSize
  /\ sk_le SK_Scalar1 fallbackTextSize = true.
Proof.
  cbv zeta. split; [reflexivity |]. split; [reflexivity |].
  destruct (MakeSourceFallback_size_integral
              (Reference 4096) (sampleFont 100) samplePaint sampleProps
              SkScalerContextFlags.kNone (SkIntToScalar 500))
    as (_ & Hint & Hone); [reflexivity | reflexivity |].
  split; [exact Hint | apply Hone; reflexivity].
Defined.

(** X5: when the largest glyph dimension is exactly the atlas limit
    (kSkSideTooBigForAtlas - 2, positive and below 2^24), the scale factor
    is exactly 1: the fallback size is the floor of the font size and the
    ratio is the font size divided by its floor. *)
Theorem MakeSourceFallback_at_atlas_limit
        (X : Collaborators) font paint surfaceProps flags :
  0 < kSkSideTooBigForAtlas - 2 < 16777216 ->
  well_formed (getSize font) = true ->
  MakeSourceFallback font paint surfaceProps flags
                     (SkIntToScalar (kSkSideTooBigForAtlas - 2))
  = commonSetup (setSubpixel false
                   (setSize (SkScalarFloorToScalar (getSize font)) font))
                paint surfaceProps flags SkMatrix_I
                (set_fStrikeToSourceRatio
                   (sk_div (getSize font) (SkScalarFloorToScalar (getSize font)))
                   SkStrikeSpecStorage_default).
Proof.
  intros Hside HS.
  destruct (SkIntToScalar_small (kSkSideTooBigForAtlas - 2) Hside)
    as (mA & eA & HA & _).
  unfold MakeSourceFallback. rewrite HA, sk_div_self, (sk_mul_one_l _ HS).
  reflexivity.
Qed.

Lemma MakeSourceFallback_at_atlas_limit_witness :
  let X := Reference 4096 in
  0 < kSkSideTooBigForAtlas - 2 < 16777216
  /\ well_formed (getSize (sampleFont 100)) = true
  /\ fStrikeToSourceRatio
       (MakeSourceFallback (sampleFont 100) samplePaint sampleProps
                           SkScalerContextFlags.kNone (SkIntToScalar 4094))
     = SK_Scalar1.
Proof.
  cbv zeta. split; [split; reflexivity |]. split; [reflexivity |].
  change (SkIntToScalar 4094)
    with (SkIntToScalar (@kSkSideTooBigForAtlas (Reference 4096) - 2)).
  rewrite (MakeSourceFallback_at_atlas_limit
             (Reference 4096) (sampleFont 100) samplePaint sampleProps
             SkScalerContextFlags.kNone).
  - rewrite (commonSetup_ratio (X := Reference 4096)). vm_compute. reflexivity.
  - split; reflexivity.
  - reflexivity.
Defined.

(** X6: MakeSourceFallback does not look at the subpixel flag of the font it
    is given: two fonts that differ only in that flag give the same storage.
    The font handed to descriptor creation has the flag off and keeps the
    typeface, scale, skew, edging and hinting of the font given, and the
    typeface stored is that font's typeface, or the default one. *)
Theorem MakeSourceFallback_ignores_subpixel
        (X : Collaborators) font paint surfaceProps flags maxSourceGlyphDimension b :
  MakeSourceFallback (setSubpixel b font) paint surfaceProps flags
                     maxSourceGlyphDimension
  = MakeSourceFallback font paint surfaceProps flags maxSourceGlyphDimension
  /\ (exists fallbackFont ratio,
        MakeSourceFallback font paint surfaceProps flags maxSourceGlyphDimension
        = commonSetup fallbackFont paint surfaceProps flags SkMatrix_I
                      (set_fStrikeToSourceRatio ratio SkStrikeSpecStorage_default)
        /\ isSubpixel fallbackFont = false
        /\ getTypeface fallbackFont = getTypeface font
        /\ font_scaleX fallbackFont = font_scaleX font
        /\ font_skewX fallbackFont = font_skewX font
        /\ getEdging fallbackFont = getEdging font
        /\ getHinting fallbackFont = getHinting font)
  /\ fTypeface
       (MakeSourceFallback font paint surfaceProps flags maxSourceGlyphDimension)
     = Some (refTypefaceOrDefault font).
Proof.
  split; [reflexivity |]. split.
  - eexists _, _. split; [reflexivity |]. repeat split.
  - unfold MakeSourceFallback. rewrite commonSetup_fields. reflexivity.
Qed.

(** X7: MakePDFVector builds its strike at the native unit scale: when the
    typeface reports fewer than 2^24 units per em, the size of the font is
    exactly the resolved units-per-em (mantissa times two to the exponent is
    that integer), and the stored ratio is 1. *)
Theorem MakePDFVector_native_scale (X : Collaborators) typeface size :
  let unitsPerEm :=
    if getUnitsPerEm typeface <=? 0 then 1024 else getUnitsPerEm typeface in
  getUnitsPerEm typeface < 16777216 ->
  exists f m e,
    fst (MakePDFVector typeface size)
    = commonSetup f SkPaint_default (mkSurfaceProps 0 kUnknown_SkPixelGeometry)
                  SkScalerContextFlags.kFakeGammaAndBoostContrast SkMatrix_I
                  SkStrikeSpecStorage_default
    /\ getSize f = S754_finite false m e
    /\ e <= 0
    /\ Z.pos m = unitsPerEm * 2 ^ (- e)
    /\ fStrikeToSourceRatio (fst (MakePDFVector typeface size))
       = S754_finite false 8388608 (-23).
Proof.
  cbv zeta. intros Hupm.
  assert (Hrange : 0 < (if getUnitsPerEm typeface <=? 0 then 1024
                        else getUnitsPerEm typeface) < 2 ^ 24).
  { change (2 ^ 24) with 16777216.
    destruct (getUnitsPerEm typeface <=? 0) eqn:E; [lia |].
    apply Z.leb_gt in E. lia. }
  destruct (SkIntToScalar_small _ Hrange) as (m & e & Hsize & He & Hm & _).
  eexists _, m, e. unfold MakePDFVector. cbn [fst].
  split; [reflexivity |].
  split; [exact Hsize |]. split; [exact He |]. split; [exact Hm |].
  rewrite commonSetup_ratio. reflexivity.
Qed.

Lemma MakePDFVector_native_scale_witness :
  let X := Reference 4096 in
  getUnitsPerEm sampleTypeface < 16777216
  /\ fStrikeToSourceRatio (fst (MakePDFVector sampleTypeface None))
     = S754_finite false 8388608 (-23).
Proof.
  cbv zeta. split; [reflexivity |].
  destruct (MakePDFVector_native_scale (Reference 4096) sampleTypeface None)
    as (f & m & e & _ & _ & _ & _ & Hratio); [reflexivity |].
  exact Hratio.
Defined.

(** X8: a constructed storage can be resolved any number of times, by any
    of the three resolvers in any order: every call returns, the storage
    stays as it was, and each call asks the cache once, always with the
    same descriptor (and, for the two CPU caches, the same effects and
    typeface); nothing is remembered between calls. *)
Theorem resolve_all_asks_once_per_call (X : Collaborators) this :
  Constructed this ->
  exists desc effects typeface,
    fAutoDescriptor this = Some desc
    /\ SkScalerContextEffects.make (fPathEffect this) (fMaskFilter this) = effects
    /\ fTypeface this = Some typeface
    /\ forall rs log,
        resolve_all rs this log
        = Some (this, log ++ map (call_of desc effects typeface) rs).
Proof.
  intros Hc.
  destruct (Constructed_commonSetup this Hc)
    as (font & paint & props & flags & matrix & ratio & ->).
  rewrite commonSetup_fields. cbv zeta.
  destruct (CreateDescriptorAndEffectsUsingPaint font paint props flags matrix)
    as [desc [pathEffect maskFilter]].
  cbn [fst snd SkScalerContextEffects.fMaskFilter SkScalerContextEffects.fPathEffect].
  eexists desc, _, _.
  split; [reflexivity |]. split; [reflexivity |]. split; [reflexivity |].
  intros rs. induction rs as [| r rs IH]; intros log.
  - cbn [resolve_all map]. rewrite app_nil_r. reflexivity.
  - cbn [resolve_all map].
    assert (Hstep : resolve_with r
                      (mkStorage (Some desc) maskFilter pathEffect
                                 (Some (refTypefaceOrDefault font))
                                 (fStrikeToSourceRatio
                                    (set_fStrikeToSourceRatio ratio
                                       SkStrikeSpecStorage_default))) log
                    = Some (mkStorage (Some desc) maskFilter pathEffect
                                      (Some (refTypefaceOrDefault font))
                                      (fStrikeToSourceRatio
                                         (set_fStrikeToSourceRatio ratio
                                            SkStrikeSpecStorage_default)),
                            log ++ [call_of desc
                                      (SkScalerContextEffects.make pathEffect maskFilter)
                                      (refTypefaceOrDefault font) r])).
    { destruct r; reflexivity. }
    rewrite Hstep, IH, <- app_assoc. reflexivity.
Qed.

Lemma resolve_all_asks_once_per_call_witness :
  let X := Reference 4096 in
  let this :=
    MakeMask (sampleFont 12) samplePaint sampleProps
             SkScalerContextFlags.kNone SkMatrix_I in
  Constructed this
  /\ exists calls,
      resolve_all [ExclusiveStrike; GrStrike; ScopedStrike; GrStrike] this []
      = Some (this, calls)
      /\ length calls = 4%nat.
Proof.
  cbv zeta. split; [constructor |].
  destruct (resolve_all_asks_once_per_call
              (Reference 4096)
              (MakeMask (X := Reference 4096) (sampleFont 12) samplePaint sampleProps
                        SkScalerContextFlags.kNone SkMatrix_I))
    as (desc & effects & typeface & _ & _ & _ & Hall); [constructor |].
  eexists. split; [apply Hall | reflexivity].
Defined.

(** X9: the scale range that MakeSDFT returns depends on the font only
    through its size, and not on the paint or the surface properties: it is
    the range of the policy for that size, the device matrix and the
    options. *)
Theorem MakeSDFT_range_depends_on_size_only
        (X : Collaborators) font font' paint paint' surfaceProps surfaceProps'
        deviceMatrix options :
  getSize font = getSize font' ->
  snd (fst (MakeSDFT font paint surfaceProps deviceMatrix options))
  = snd (fst (MakeSDFT font' paint' surfaceProps' deviceMatrix options))
  /\ snd (MakeSDFT font paint surfaceProps deviceMatrix options)
     = snd (MakeSDFT font' paint' surfaceProps' deviceMatrix options)
  /\ (snd (fst (MakeSDFT font paint surfaceProps deviceMatrix options)),
      snd (MakeSDFT font paint surfaceProps deviceMatrix options))
     = InitDistanceFieldMinMaxScale (getSize font) deviceMatrix options.
Proof.
  intros Hsize. rewrite !MakeSDFT_unfold. cbn [fst snd]. rewrite Hsize.
  split; [reflexivity |]. split; [reflexivity |].
  destruct (InitDistanceFieldMinMaxScale (getSize font') deviceMatrix options).
  reflexivity.
Qed.

Lemma MakeSDFT_range_depends_on_size_only_witness :
  let X := Reference 4096 in
  let font' := setHinting SkFontHinting.kNone (setTypeface None (sampleFont 12)) in
  getSize (sampleFont 12) = getSize font'
  /\ snd (MakeSDFT (sampleFont 12) samplePaint sampleProps (scaleMatrix 2) tt)
     = snd (MakeSDFT font' SkPaint_default SkSurfaceProps_kLegacyFontHost
                     (scaleMatrix 2) tt).
Proof.
  cbv zeta. split; [reflexivity |].
  apply (MakeSDFT_range_depends_on_size_only (Reference 4096)). reflexivity.
Defined.

(** ** The factories that build a descriptor from normalised inputs *)

Lemma MakePDFVector_units_per_em_witness :
  let X := Reference 4096 in
  let zero := mkTypeface 9 0 in
  fAutoDescriptor (fst (MakePDFVector zero (Some 5)))
  = Some (mkDescriptor
            (mkFont (Some zero) (S754_finite false 8388608 (-13))
                    SK_Scalar1 SK_Scalar0 false Edging.kAlias SkFontHinting.kNone)
            (mkPaint 4278190080 false None None)
            (mkSurfaceProps 0 kUnknown_SkPixelGeometry) 3 SkMatrix_I)
  /\ fTypeface (fst (MakePDFVector zero (Some 5))) = Some zero
  /\ snd (MakePDFVector zero (Some 5)) = Some 1024.
Proof.
  cbv zeta.
  destruct (MakePDFVector_units_per_em (X := Reference 4096) (mkTypeface 9 0))
    as (_ & Hstorage & Hsize & _).
  rewrite (Hstorage (Some 5)), (Hsize 5).
  split; [reflexivity |]. split; reflexivity.
Defined.

Lemma MakeSDFT_policy_and_flags_witness :
  let X := Reference 4096 in
  let storage :=
    fst (fst (MakeSDFT (sampleFont 12) samplePaint sampleProps (scaleMatrix 2) tt)) in
  fAutoDescriptor storage
  = Some (mkDescriptor
            (setSize (SkIntToScalar 32) (setSubpixel true (sampleFont 12)))
            (mkPaint 4294901760 false (Some (MaskFilterRef 0)) (Some (PathEffectRef 5)))
            sampleProps 0 SkMatrix_I)
  /\ fMaskFilter storage = Some (MaskFilterRef 0)
  /\ fPathEffect storage = Some (PathEffectRef 5)
  /\ fTypeface storage = Some sampleTypeface.
Proof.
  cbv zeta.
  destruct (MakeSDFT_policy_and_flags (X := Reference 4096)
              (sampleFont 12) samplePaint sampleProps (scaleMatrix 2) tt)
    as (_ & Hstorage & _).
  rewrite Hstorage. cbn [fst].
  split; [reflexivity |]. split; [reflexivity |]. split; reflexivity.
Defined.







